(** * A cache facade over a memcache client, and a clock helper

    A shallow embedding of the [Memcached] class (a typed facade over the
    external [memcache-client] package) and of the [Now] class (now.ts).

    - JavaScript values are an inductive type; numbers are IEEE 754 binary64
      values (Rocq's primitive floats), objects used as tables are finite
      maps.
    - The external client is not part of the repository.  Every facade method
      is a program ([Async]) that issues calls to the client and continues
      with the reply; a program is run against an arbitrary client ([Client]),
      which also decides whether a call's promise is fulfilled or rejected.
      The run records the calls that reached the client.
    - [Now] is a record holding the time value of its [Date]; its methods
      pass the instance explicitly and return the new instance. *)

From Stdlib Require Import ZArith Floats.
From stdpp Require Import gmap strings list.
From Stdlib Require Import Ascii.

Set Default Proof Using "Type".

(** ** JavaScript values *)

Definition number := float.

#[local] Set Warnings "-register-all".
Inductive JsValue : Type :=
| JUndefined
| JNull
| JBoolean (b : bool)
| JNumber (n : number)
| JString (s : string)
| JArray (elements : list JsValue)
| JObject (props : list (string * JsValue))
| JFunction (name : string).
Arguments JNumber n%_float.

(** [ToBoolean]: the test of [if (v)].  The falsy values are [undefined],
    [null], [false], [+0], [-0], [NaN] and the empty string.  [JFunction]
    is a built-in function, given by its name. *)
Definition truthy (v : JsValue) : bool :=
  match v with
  | JUndefined | JNull => false
  | JBoolean b => b
  | JNumber n => negb (PrimFloat.eqb n 0 || PrimFloat.is_nan n)
  | JString s => negb (String.eqb s "")
  | JArray _ | JObject _ | JFunction _ => true
  end.

Definition nullish (v : JsValue) : bool :=
  match v with
  | JUndefined | JNull => true
  | _ => false
  end.

(** [a ?? b] *)
Definition nullish_coalesce (a b : JsValue) : JsValue :=
  if nullish a then b else a.

(** An optional property of an object literal: not there at all, there with
    the value [undefined], or there with a value.  Spreading an object copies
    the properties that are there, [undefined] ones included. *)
Inductive Property (A : Type) : Type :=
| Omitted
| IsUndefined
| Is (a : A).
Arguments Omitted {A}.
Arguments IsUndefined {A}.
Arguments Is {A} a.

(** [{ p: base, ...{ p: over } }] for one property [p]. *)
Definition spread_over {A} (base over : Property A) : Property A :=
  match over with
  | Omitted => base
  | _ => over
  end.

(** ** Option objects *)

Record CommonCommandOption := {
  noreply : Property bool
}.

(** [CommonCommandOption & { ignoreNotStored? } & { compress? }] *)
Record StoreCommandOptions := {
  common :> CommonCommandOption;
  ignoreNotStored : Property bool;
  compress : Property bool
}.

(** The object literal [{ lifetime, ...options }] handed to the client.
    The lifetime is whatever value the method's [lifetime] parameter has. *)
Record ClientStoreOptions := {
  lifetime : Property JsValue;
  store_options :> StoreCommandOptions
}.

Definition no_options : StoreCommandOptions :=
  {| common := {| noreply := Omitted |};
     ignoreNotStored := Omitted;
     compress := Omitted |}.

(** [...options] where [options] may be [undefined]: nothing is copied. *)
Definition spread (options : option StoreCommandOptions) : StoreCommandOptions :=
  default no_options options.

(** [{ lifetime, ...options }]: the type of [options] has no [lifetime]. *)
Definition with_lifetime (l : JsValue) (options : option StoreCommandOptions)
  : ClientStoreOptions :=
  {| lifetime := Is l; store_options := spread options |}.

(** [{ noreply: true, ...options }] *)
Definition with_noreply (options : option StoreCommandOptions)
  : StoreCommandOptions :=
  let o := spread options in
  {| common := {| noreply := spread_over (Is true) (noreply o) |};
     ignoreNotStored := ignoreNotStored o;
     compress := compress o |}.

(** ** The client *)

(** What [client.get] and [client.gets] resolve with for a key. *)
Record RetrievalCommandResponse := {
  tokens : list string;
  casUniq : option string;
  value : JsValue
}.

(** The methods of [MemcacheClient] the facade calls, indexed by the type of
    the value their promise is fulfilled with. *)
Inductive Call : Type -> Type :=
| client_get (key : string) : Call (option RetrievalCommandResponse)
| client_gets (keys : list string) : Call (gmap string RetrievalCommandResponse)
| client_set (key : string) (v : JsValue) (o : ClientStoreOptions) : Call JsValue
| client_add (key : string) (v : JsValue) (o : ClientStoreOptions) : Call JsValue
| client_replace (key : string) (v : JsValue) (o : ClientStoreOptions) : Call JsValue
| client_append (key : string) (v : JsValue) (o : ClientStoreOptions) : Call JsValue
| client_prepend (key : string) (v : JsValue) (o : ClientStoreOptions) : Call JsValue
| client_incr (key : string) (amount : number) (o : ClientStoreOptions) : Call JsValue
| client_decr (key : string) (amount : number) (o : ClientStoreOptions) : Call JsValue
| client_delete (key : string) (o : option StoreCommandOptions) : Call JsValue
| client_touch (key : string) (l : JsValue) (o : option CommonCommandOption) : Call JsValue
| client_cmd (command : string) (o : option CommonCommandOption) : Call JsValue.

(** A promise-returning computation: it resolves, rejects, or awaits a call
    to the client and goes on with the value the promise is fulfilled with.
    The source has no [try]/[catch] and no [.catch]: a rejected promise
    rejects the whole computation (see [run]). *)
Inductive Async (R : Type) : Type :=
| Resolve (r : R)
| Reject (reason : JsValue)
| Await {X : Type} (c : Call X) (k : X -> Async R).
Arguments Resolve {R} r.
Arguments Reject {R} reason.
Arguments Await {R X} c k.

Fixpoint bind {A B} (p : Async A) (f : A -> Async B) : Async B :=
  match p with
  | Resolve a => f a
  | Reject e => Reject e
  | Await c k => Await c (fun x => bind (k x) f)
  end.

(** The monad of promises, with stdpp's [x ← p; q] for [const x = await p; q]. *)
#[global] Instance Async_ret : MRet Async := @Resolve.
#[global] Instance Async_bind : MBind Async := fun A B f p => bind p f.

(** [client.m(...)] as a computation: the promise the client returns. *)
Definition call {X} (c : Call X) : Async X := Await c Resolve.

Inductive Settled (X : Type) : Type :=
| Fulfilled (x : X)
| Rejected (reason : JsValue).
Arguments Fulfilled {X} x.
Arguments Rejected {X} reason.

(** A client: how each call settles, and what it does to the world [W]
    (the servers, the connections) behind it. *)
Definition Client (W : Type) : Type := forall X, Call X -> W -> Settled X * W.

Inductive Event : Type :=
| Sent {X : Type} (c : Call X).

(** Running a computation against a client: the way its promise settles, the
    world afterwards, and the calls made, in order. *)
Fixpoint run {W R} (client : Client W) (p : Async R) (w : W)
  : Settled R * W * list Event :=
  match p with
  | Resolve r => (Fulfilled r, w, [])
  | Reject e => (Rejected e, w, [])
  | Await c k =>
      match client _ c w with
      | (Fulfilled x, w') =>
          let '(r, w'', tr) := run client (k x) w' in (r, w'', Sent c :: tr)
      | (Rejected e, w') => (Rejected e, w', [Sent c])
      end
  end.

(** ** The facade (class [Memcached]) *)

(** The private fields set by the constructor, the client apart.
    [lifeTime] holds the own properties of the lifetime table, a plain
    object. *)
Record Memcached := {
  lifeTime : gmap string number;
  scope : option string
}.

(** The members every plain object inherits from [Object.prototype]: what
    [o[name]] finds up the prototype chain when [o] has no own property
    [name].  The methods are functions ([constructor] is the function
    [Object]); [__proto__] is the prototype object itself. *)
Definition Object_prototype (name : string) : option JsValue :=
  if String.eqb name "constructor" then Some (JFunction "Object")
  else if String.eqb name "__proto__" then Some (JObject [])
  else if bool_decide (name ∈ ["hasOwnProperty"; "isPrototypeOf";
                               "propertyIsEnumerable"; "toLocaleString";
                               "toString"; "valueOf";
                               "__defineGetter__"; "__defineSetter__";
                               "__lookupGetter__"; "__lookupSetter__"])
  then Some (JFunction name)
  else None.

(** [table[name]] for a plain object with the own properties [own]: the own
    property, else the inherited member, else [undefined]. *)
Definition get_property (own : gmap string number) (name : string) : JsValue :=
  match own !! name with
  | Some n => JNumber n
  | None => default JUndefined (Object_prototype name)
  end.

(** A key as the methods accept it: a string, an array of path segments, or
    a number or symbol, of which the methods only ever take [toString()]. *)
Inductive Key : Type :=
| KString (s : string)
| KArray (segments : list string)
| KNumber (toString : string)
| KSymbol (toString : string).

Module Memcached.

(** [constructor(options, lifeTime = {}, scope?)] *)
Definition new (lifeTime : option (gmap string number)) (scope : option string)
  : Memcached :=
  {| lifeTime := default ∅ lifeTime; scope := scope |}.

Definition resolveKey (this : Memcached) (key : Key) : string :=
  match key with
  | KArray segments => String.concat "/" segments
  | KString s => s
  | KNumber toString | KSymbol toString => toString
  end.

(** The value of a [lifetime] parameter: the argument, or its default
    [this.lifeTime[this.resolveKey(key)] ?? 0] when the argument is left
    out ([None]) or is [undefined]. *)
Definition lifetime_or_default (this : Memcached) (key : Key)
    (lifetime : option JsValue) : JsValue :=
  match lifetime with
  | Some JUndefined | None =>
      nullish_coalesce (get_property (lifeTime this) (resolveKey this key))
        (JNumber 0)
  | Some l => l
  end.

Definition get (this : Memcached) (key : Key) : Async JsValue :=
  res ← call (client_get (resolveKey this key));
  mret (from_option value JUndefined res).

Definition put (this : Memcached) (key : Key) (v : JsValue) (lifetime : option JsValue)
    (options : option StoreCommandOptions) : Async JsValue :=
  let lifetime := lifetime_or_default this key lifetime in
  call (client_set (resolveKey this key) v (with_lifetime lifetime options)).

Definition forever (this : Memcached) (key : Key) (v : JsValue)
    (options : option StoreCommandOptions) : Async JsValue :=
  call (client_set (resolveKey this key) v (with_lifetime (JNumber 0) options)).

Definition delete (this : Memcached) (key : Key) (options : option StoreCommandOptions)
  : Async JsValue :=
  call (client_delete (resolveKey this key) options).

Definition forget (this : Memcached) (key : Key) (options : option StoreCommandOptions)
  : Async JsValue :=
  delete this key options.

Definition add (this : Memcached) (key : Key) (v : JsValue) (lifetime : option JsValue)
    (options : option StoreCommandOptions) : Async JsValue :=
  let lifetime := lifetime_or_default this key lifetime in
  call (client_add (resolveKey this key) v (with_lifetime lifetime options)).

(** [value: number = 1] *)
Definition increment (this : Memcached) (key : Key) (amount : option number)
    (lifetime : option JsValue) (options : option StoreCommandOptions)
  : Async JsValue :=
  let amount := default 1%float amount in
  let lifetime := lifetime_or_default this key lifetime in
  call (client_incr (resolveKey this key) amount (with_lifetime lifetime options)).

Definition decrement (this : Memcached) (key : Key) (amount : option number)
    (lifetime : option JsValue) (options : option StoreCommandOptions)
  : Async JsValue :=
  let amount := default 1%float amount in
  let lifetime := lifetime_or_default this key lifetime in
  call (client_decr (resolveKey this key) amount (with_lifetime lifetime options)).

Definition remember (this : Memcached) (key : Key) (lifetime : option JsValue)
    (fnGet : Async JsValue) (options : option StoreCommandOptions)
  : Async JsValue :=
  let lifetime := lifetime_or_default this key lifetime in
  inCache ← get this key;
  if truthy inCache then mret inCache
  else
    v ← fnGet;
    _ ← put this key v (Some lifetime) (Some (with_noreply options));
    mret v.

Definition rememberForever (this : Memcached) (key : Key) (fnGet : Async JsValue)
    (options : option StoreCommandOptions) : Async JsValue :=
  remember this key (Some (JNumber 0)) fnGet options.

(** [def] is [undefined] when the argument is left out. *)
Definition pull (this : Memcached) (key : Key) (def : JsValue) : Async JsValue :=
  val ← get this key;
  _ ← (if truthy val then delete this key None else mret JUndefined);
  mret (nullish_coalesce val def).

Definition replace (this : Memcached) (key : Key) (v : JsValue) (lifetime : option JsValue)
    (options : option StoreCommandOptions) : Async JsValue :=
  let lifetime := lifetime_or_default this key lifetime in
  call (client_replace (resolveKey this key) v (with_lifetime lifetime options)).

Definition append (this : Memcached) (key : Key) (v : JsValue) (lifetime : option JsValue)
    (options : option StoreCommandOptions) : Async JsValue :=
  let lifetime := lifetime_or_default this key lifetime in
  call (client_append (resolveKey this key) v (with_lifetime lifetime options)).

Definition prepend (this : Memcached) (key : Key) (v : JsValue) (lifetime : option JsValue)
    (options : option StoreCommandOptions) : Async JsValue :=
  let lifetime := lifetime_or_default this key lifetime in
  call (client_prepend (resolveKey this key) v (with_lifetime lifetime options)).

(** The template literal's [${delay}]: [undefined] prints as its name. *)
Definition template_string (delay : option string) : string :=
  default "undefined" delay.

Definition flush (this : Memcached) (delay : option string) (noReply : option bool)
  : Async JsValue :=
  call (client_cmd ("flush_all " +:+ template_string delay)
          (Some {| noreply := from_option Is IsUndefined noReply |})).

Definition incLifetime (this : Memcached) (key : Key) (lifetime : option JsValue)
    (options : option CommonCommandOption) : Async JsValue :=
  let lifetime := lifetime_or_default this key lifetime in
  call (client_touch (resolveKey this key) lifetime options).

Definition cmd (this : Memcached) (command : string) (options : option CommonCommandOption)
  : Async JsValue :=
  call (client_cmd command options).

(** [data[key]?.value] *)
Definition gets (this : Memcached) (keys : list string) : Async (list JsValue) :=
  data ← call (client_gets keys);
  mret ((fun key => from_option value JUndefined (data !! key)) <$> keys).

End Memcached.

(** ** An in-memory memcached behind the client

    One client to run the facade against: a single server that keeps its
    items in a table, never expires them, and may be out of memory, in which
    case it answers every store with [SERVER_ERROR].  The client rejects the
    promise of a command the server answers with an error, and, when
    [noreply] is set, reads no answer at all and fulfils the promise with
    [undefined]. *)

Record Server := {
  items : gmap string JsValue;
  out_of_memory : bool
}.

Definition wants_noreply (o : CommonCommandOption) : bool :=
  match noreply o with
  | Is true => true
  | _ => false
  end.

Definition answer (o : CommonCommandOption) (line : string) : JsValue :=
  if wants_noreply o then JUndefined else JArray [JString line].

Definition retrieved (v : JsValue) : RetrievalCommandResponse :=
  {| tokens := []; casUniq := None; value := v |}.

(** A store command: [update] gives the new item, or [None] when the
    command's condition on the key fails ([NOT_STORED]). *)
Definition store (key : string) (update : option JsValue)
    (o : ClientStoreOptions) (w : Server) : Settled JsValue * Server :=
  if out_of_memory w then
    (if wants_noreply o then Fulfilled JUndefined
     else Rejected (JString "SERVER_ERROR out of memory storing object"), w)
  else
    match update with
    | Some v =>
        (Fulfilled (answer o "STORED"),
         {| items := <[key := v]> (items w); out_of_memory := out_of_memory w |})
    | None => (Fulfilled (answer o "NOT_STORED"), w)
    end.

Definition concat_values (a b : JsValue) : option JsValue :=
  match a, b with
  | JString x, JString y => Some (JString (x +:+ y))
  | _, _ => None
  end.

Definition arith (op : float -> float -> float) (key : string) (amount : number)
    (o : ClientStoreOptions) (w : Server) : Settled JsValue * Server :=
  match items w !! key with
  | Some (JNumber n) =>
      let n' := op n amount in
      (Fulfilled (if wants_noreply o then JUndefined else JNumber n'),
       {| items := <[key := JNumber n']> (items w);
          out_of_memory := out_of_memory w |})
  | Some _ =>
      (if wants_noreply o then Fulfilled JUndefined
       else Rejected (JString
         "CLIENT_ERROR cannot increment or decrement non-numeric value"), w)
  | None => (Fulfilled (answer o "NOT_FOUND"), w)
  end.

Definition memcache : Client Server :=
  fun X c w =>
    match c in Call X return Settled X * Server with
    | client_get key => (Fulfilled (retrieved <$> items w !! key), w)
    | client_gets keys =>
        (Fulfilled
           (list_to_map
              (omap (fun k => (fun v => (k, retrieved v)) <$> items w !! k) keys)),
         w)
    | client_set key v o => store key (Some v) o w
    | client_add key v o =>
        store key (match items w !! key with Some _ => None | None => Some v end) o w
    | client_replace key v o =>
        store key (match items w !! key with Some _ => Some v | None => None end) o w
    | client_append key v o =>
        store key (old ← items w !! key; concat_values old v) o w
    | client_prepend key v o =>
        store key (old ← items w !! key; concat_values v old) o w
    | client_incr key amount o => arith PrimFloat.add key amount o w
    | client_decr key amount o => arith PrimFloat.sub key amount o w
    | client_delete key o =>
        match items w !! key with
        | Some _ =>
            (Fulfilled (answer (spread o) "DELETED"),
             {| items := base.delete key (items w);
                out_of_memory := out_of_memory w |})
        | None => (Fulfilled (answer (spread o) "NOT_FOUND"), w)
        end
    | client_touch key _ o =>
        let o := default {| noreply := Omitted |} o in
        (Fulfilled (answer o (match items w !! key with
                              | Some _ => "TOUCHED"
                              | None => "NOT_FOUND"
                              end)), w)
    | client_cmd command o =>
        let o := default {| noreply := Omitted |} o in
        if String.eqb command "flush_all" then
          (Fulfilled (answer o "OK"),
           {| items := ∅; out_of_memory := out_of_memory w |})
        else if wants_noreply o then (Fulfilled JUndefined, w)
        else (Rejected (JString "ERROR"), w)
    end.

(** ** The clock (class [Now], now.ts)

    A [Date] holds a time value: a Number that is either [NaN] or an integral
    number of milliseconds of magnitude at most 8.64e15.  [setTime] stores
    [TimeClip] of its argument. *)

(** The integer part of a finite number, rounded towards zero. *)
Definition truncate (x : float) : Z :=
  match Prim2SF x with
  | S754_finite s m e =>
      let a := if (0 <=? e)%Z then Z.shiftl (Zpos m) e
               else Z.shiftr (Zpos m) (- e) in
      if s then (- a)%Z else a
  | _ => 0%Z
  end.

(** The Number of an integer of magnitude below 2^63 (exact below 2^53). *)
Definition of_Z (z : Z) : float :=
  let a := PrimFloat.of_uint63 (Uint63.of_Z (Z.abs z)) in
  if (z <? 0)%Z then PrimFloat.opp a else a.

(** The same on specification floats (see [Prim2SF_of_Z]). *)
Definition SF_of_Z (z : Z) : spec_float :=
  let a := binary_normalize prec emax (Z.abs z) 0 false in
  if (z <? 0)%Z then SFopp a else a.

(** [TimeClip(time)] of ECMA-262: [NaN] unless [time] is finite and of
    magnitude at most 8.64e15; otherwise its integer part, [+0] for zero. *)
Definition TimeClip (time : float) : float :=
  if PrimFloat.is_nan time || PrimFloat.is_infinity time then nan
  else if PrimFloat.ltb 8.64e15 (PrimFloat.abs time) then nan
  else of_Z (truncate time).

Record Now := {
  now : float
}.

(** [constructor(time?)] for a number [time]; [clock] is what [Date.now()]
    returns, used when [time] is left out. *)
Definition new_Now (clock : float) (time : option float) : Now :=
  {| now := TimeClip (default clock time) |}.

Definition getTime (this : Now) : float := now this.

Definition setTime (this : Now) (time : float) : Now :=
  {| now := TimeClip time |}.

(** Each method returns its result and the instance after the call. *)
Definition addSeconds (this : Now) (seconds : float) : float * Now :=
  let this := setTime this (PrimFloat.add (getTime this) (PrimFloat.mul seconds 1000)) in
  (PrimFloat.div (getTime this) 1000, this).

Definition addMinutes (this : Now) (minutes : float) : float * Now :=
  addSeconds this (PrimFloat.mul minutes 60).

Definition addHours (this : Now) (hours : float) : float * Now :=
  addMinutes this (PrimFloat.mul hours 60).

Definition addDays (this : Now) (days : float) : float * Now :=
  addHours this (PrimFloat.mul days 24).

(** ** The type [Split]

    [Split<S, D>] computes the array form of a path key: when [S] has the
    shape [`${infer T}${D}${infer U}`], with [T] the text before the first
    [D], it is [[T, ...Split<U, D>]], and [[S]] otherwise.  The class uses it
    with the one-character delimiter "/"; [Split_from T S D] scans [S] for
    the first [D] with [T] the text read so far. *)
Fixpoint Split_from (T S : string) (D : ascii) : list string :=
  match S with
  | EmptyString => [T]
  | String c U =>
      if Ascii.eqb c D then T :: Split_from "" U D
      else Split_from (T +:+ String c "") U D
  end.

Definition Split (S : string) (D : ascii) : list string := Split_from "" S D.

(** Whether the character [D] occurs in [s]. *)
Fixpoint has_char (D : ascii) (s : string) : bool :=
  match s with
  | EmptyString => false
  | String c rest => Ascii.eqb c D || has_char D rest
  end.

(** ** Two more clients *)

(** A client that cannot reach its server: every promise is rejected. *)
Definition unreachable : Client unit :=
  fun X c w => (Rejected (JString "connect ECONNREFUSED"), w).

(** A client whose reads are answered by the in-memory server and whose
    other commands time out. *)
Definition reads_only : Client Server :=
  fun X c w =>
    match c in Call X return Settled X * Server with
    | client_get key => memcache _ (client_get key) w
    | client_gets keys => memcache _ (client_gets keys) w
    | _ => (Rejected (JString "ETIMEDOUT"), w)
    end.

(** What a call that is passed through settles with: the client's own
    outcome, and the one call in the trace. *)
Definition forwarded {W X} (client : Client W) (c : Call X) (w : W)
  : Settled X * W * list Event :=
  let '(r, w') := client X c w in (r, w', [Sent c]).

(** ** The clock's factory and time values *)

Module now_ts.

(** [export function now(time?)] *)
Definition now (clock : float) (time : option float) : Now := new_Now clock time.

End now_ts.

(** A time value as a [Date] keeps it: [NaN] (an invalid date) or a whole
    number of milliseconds of magnitude at most 8.64e15. *)
Definition time_value (t : float) : Prop :=
  t = nan \/ exists k : Z, (Z.abs k <= 8640000000000000)%Z /\ t = of_Z k.

(** ** Instances used in the examples *)

Definition server_with (l : list (string * JsValue)) : Server :=
  {| items := list_to_map l; out_of_memory := false |}.

(** [new Memcached(options, { visits: 60 })] *)
Definition cache : Memcached :=
  Memcached.new (Some {[ "visits" := 60%float ]}) None.

(** [new Memcached(options, { visits: 60 }, "app")] *)
Definition scoped_cache : Memcached :=
  Memcached.new (Some {[ "visits" := 60%float ]}) (Some "app").

(** ** Reading the calls *)

(** The key a call carries ([gets] carries several and [cmd] none). *)
Definition call_key {X} (c : Call X) : option string :=
  match c with
  | client_get key
  | client_set key _ _ | client_add key _ _ | client_replace key _ _
  | client_append key _ _ | client_prepend key _ _
  | client_incr key _ _ | client_decr key _ _
  | client_delete key _ | client_touch key _ _ => Some key
  | client_gets _ | client_cmd _ _ => None
  end.

(** The key of the first call a computation makes. *)
Definition first_key {R} (p : Async R) : option string :=
  match p with
  | Await c _ => call_key c
  | _ => None
  end.

(** * Properties *)

(** ** Running computations *)

Lemma run_bind {W A B} (client : Client W) (p : Async A) (f : A -> Async B) w :
  run client (p ≫= f) w =
  match run client p w with
  | (Fulfilled a, w', tr) =>
      let '(r, w'', tr') := run client (f a) w' in (r, w'', tr ++ tr')
  | (Rejected e, w', tr) => (Rejected e, w', tr)
  end.
Proof.
  unfold mbind, Async_bind.
  revert w. induction p as [a|e|X c k IH]; intros w; simpl.
  - by destruct (run client (f a) w) as [[r w'] tr].
  - done.
  - destruct (client X c w) as [[x|e] w']; [|done].
    rewrite IH. destruct (run client (k x) w') as [[[a|e] w''] tr]; [|done].
    by destruct (run client (f a) w'') as [[r w3] tr'].
Qed.

Lemma run_call {W X} (client : Client W) (c : Call X) w :
  run client (call c) w =
  match client X c w with
  | (Fulfilled x, w') => (Fulfilled x, w', [Sent c])
  | (Rejected e, w') => (Rejected e, w', [Sent c])
  end.
Proof. simpl. by destruct (client X c w) as [[x|e] w']. Qed.

Lemma run_get {W} (client : Client W) this key w :
  run client (Memcached.get this key) w =
  match client _ (client_get (Memcached.resolveKey this key)) w with
  | (Fulfilled res, w') =>
      (Fulfilled (from_option value JUndefined res), w',
       [Sent (client_get (Memcached.resolveKey this key))])
  | (Rejected e, w') =>
      (Rejected e, w', [Sent (client_get (Memcached.resolveKey this key))])
  end.
Proof.
  unfold Memcached.get. rewrite run_bind, run_call.
  by destruct (client _ _ w) as [[x|e] w'].
Qed.

(** A lifetime that went through the default once is not defaulted again:
    [x ?? 0] is never [undefined]. *)
Lemma lifetime_or_default_again this key (lifetime : option JsValue) :
  Memcached.lifetime_or_default this key
    (Some (Memcached.lifetime_or_default this key lifetime))
  = Memcached.lifetime_or_default this key lifetime.
Proof.
  unfold Memcached.lifetime_or_default, nullish_coalesce.
  destruct lifetime as [[]|]; try reflexivity;
    by destruct (get_property _ _).
Qed.

(** ** [remember] and [pull] *)

(** What [remember] does once [get] has settled: it answers from the cache
    when the value retrieved is truthy, and otherwise runs the rest of its
    body (compute, store, return). *)
Lemma run_remember {W} (client : Client W) this key l fnGet options w :
  run client (Memcached.remember this key l fnGet options) w =
  let get := client_get (Memcached.resolveKey this key) in
  match client _ get w with
  | (Rejected e, w') => (Rejected e, w', [Sent get])
  | (Fulfilled res, w') =>
      let inCache := from_option value JUndefined res in
      if truthy inCache then (Fulfilled inCache, w', [Sent get])
      else
        let '(r, w'', tr) :=
          run client
            (v ← fnGet;
             _ ← Memcached.put this key v
                   (Some (Memcached.lifetime_or_default this key l))
                   (Some (with_noreply options));
             mret v) w' in
        (r, w'', Sent get :: tr)
  end.
Proof.
  unfold Memcached.remember. rewrite run_bind, run_get. cbv zeta.
  destruct (client _ _ w) as [[res|e] w']; [|done].
  destruct (truthy _); [done|].
  by destruct (run client _ w') as [[r w''] tr].
Qed.

Lemma run_pull {W} (client : Client W) this key def w :
  run client (Memcached.pull this key def) w =
  let get := client_get (Memcached.resolveKey this key) in
  let del := client_delete (Memcached.resolveKey this key) None in
  match client _ get w with
  | (Rejected e, w') => (Rejected e, w', [Sent get])
  | (Fulfilled res, w') =>
      let val := from_option value JUndefined res in
      if truthy val then
        match client _ del w' with
        | (Fulfilled _, w'') =>
            (Fulfilled (nullish_coalesce val def), w'', [Sent get; Sent del])
        | (Rejected e, w'') => (Rejected e, w'', [Sent get; Sent del])
        end
      else (Fulfilled (nullish_coalesce val def), w', [Sent get])
  end.
Proof.
  unfold Memcached.pull. rewrite run_bind, run_get. cbv zeta.
  destruct (client _ _ w) as [[res|e] w']; [|done].
  rewrite run_bind. destruct (truthy _); [|done].
  unfold Memcached.delete. rewrite run_call.
  by destruct (client _ _ w') as [[x|e] w''].
Qed.

(** X11. A hit on a truthy value: the value is returned, [fnGet] is not run
    and nothing is stored; the only call is the [get]. *)
Lemma remember_truthy_hit {W} (client : Client W) this key l fnGet options w res w' :
  client _ (client_get (Memcached.resolveKey this key)) w = (Fulfilled (Some res), w') ->
  truthy (value res) = true ->
  run client (Memcached.remember this key l fnGet options) w =
  (Fulfilled (value res), w', [Sent (client_get (Memcached.resolveKey this key))]).
Proof. intros Hget Ht. rewrite run_remember. cbv zeta. rewrite Hget. simpl. by rewrite Ht. Qed.

(** X12. A miss: [fnGet] is awaited, its value is stored under the key by
    [put] with the lifetime given, and returned. *)
Lemma remember_absent {W} (client : Client W) this key (l : number) fnGet
    options w w1 v w2 tr x w3 :
  let rk := Memcached.resolveKey this key in
  let set := client_set rk v
               (with_lifetime (JNumber l) (Some (with_noreply options))) in
  client _ (client_get rk) w = (Fulfilled None, w1) ->
  run client fnGet w1 = (Fulfilled v, w2, tr) ->
  client _ set w2 = (Fulfilled x, w3) ->
  run client (Memcached.remember this key (Some (JNumber l)) fnGet options) w =
  (Fulfilled v, w3, Sent (client_get rk) :: tr ++ [Sent set]).
Proof.
  intros rk set Hget Hf Hset. rewrite run_remember. cbv zeta. fold rk.
  rewrite Hget. cbn [from_option truthy]. rewrite run_bind, Hf. cbv beta.
  rewrite run_bind. unfold Memcached.put. rewrite run_call.
  cbn [Memcached.lifetime_or_default]. fold rk. fold set.
  by rewrite Hset.
Qed.

(** X13. A hit on a truthy value: the key is deleted and the value
    returned. *)
Lemma pull_truthy_hit {W} (client : Client W) this key def w res w1 x w2 :
  let rk := Memcached.resolveKey this key in
  client _ (client_get rk) w = (Fulfilled (Some res), w1) ->
  truthy (value res) = true ->
  client _ (client_delete rk None) w1 = (Fulfilled x, w2) ->
  run client (Memcached.pull this key def) w =
  (Fulfilled (value res), w2, [Sent (client_get rk); Sent (client_delete rk None)]).
Proof.
  intros rk Hget Ht Hdel. rewrite run_pull. cbv zeta. fold rk.
  rewrite Hget. simpl. rewrite Ht, Hdel.
  unfold nullish_coalesce. by destruct (value res).
Qed.

(** X14. A miss: nothing is deleted and the default is returned. *)
Lemma pull_absent {W} (client : Client W) this key def w w1 :
  let rk := Memcached.resolveKey this key in
  client _ (client_get rk) w = (Fulfilled None, w1) ->
  run client (Memcached.pull this key def) w =
  (Fulfilled def, w1, [Sent (client_get rk)]).
Proof. intros rk Hget. rewrite run_pull. cbv zeta. fold rk. by rewrite Hget. Qed.

(** C1. [remember] answers from the cache only when the value retrieved is
    truthy.  With the number 0 stored under the key, [remember] runs the
    compute function (here it reads the key "total"), stores its value over
    the 0 and returns it, where the specification has the stored 0 returned and
    nothing computed or stored. *)
Theorem remember_recomputes_stored_zero :
  run memcache
    (Memcached.remember cache (KString "visits") (Some (JNumber 60))
       (Memcached.get cache (KString "total")) None)
    (server_with [("visits", JNumber 0); ("total", JNumber 7)])
  = (Fulfilled (JNumber 7),
     server_with [("visits", JNumber 7); ("total", JNumber 7)],
     [Sent (client_get "visits");
      Sent (client_get "total");
      Sent (client_set "visits" (JNumber 7)
              {| lifetime := Is (JNumber 60);
                 store_options :=
                   {| common := {| noreply := Is true |};
                      ignoreNotStored := Omitted;
                      compress := Omitted |} |})]).
Proof. vm_compute. reflexivity. Qed.

(** C2. [pull] deletes only when the value retrieved is truthy.  With the
    number 0 stored under the key, [pull] returns the 0 and leaves the key
    in the cache: no delete is sent, where the specification has a present key
    deleted. *)
Theorem pull_keeps_stored_zero :
  run memcache
    (Memcached.pull cache (KString "visits") (JString "none"))
    (server_with [("visits", JNumber 0)])
  = (Fulfilled (JNumber 0),
     server_with [("visits", JNumber 0)],
     [Sent (client_get "visits")]).
Proof. vm_compute. reflexivity. Qed.

(** C3 as stated fails for [pull]: with the number 0 stored under the key
    and the default "none", [pull] returns the stored 0 and not the
    default. *)
Lemma pull_falsy_default_counterexample :
  ~ (forall (W : Type) (client : Client W) (w w' : W) this key def res,
       client _ (client_get (Memcached.resolveKey this key)) w
         = (Fulfilled (Some res), w') ->
       truthy (value res) = false ->
       run client (Memcached.pull this key def) w
         = (Fulfilled def, w',
            [Sent (client_get (Memcached.resolveKey this key))])).
Proof.
  intros H.
  specialize (H Server memcache
                (server_with [("visits", JNumber 0)])
                (server_with [("visits", JNumber 0)])
                cache (KString "visits") (JString "none")
                (retrieved (JNumber 0)) eq_refl eq_refl).
  vm_compute in H. discriminate H.
Qed.

(** C3, amended.  A key that is present with a falsy value is a miss for
    what [remember] and [pull] do next: [remember] goes on to compute and
    to store over the value, and [pull] sends no delete.  What [pull]
    returns is decided by [??]: the stored value itself, the default only
    when that value is [null] or [undefined]. *)
Theorem falsy_value_treated_as_miss {W} (client : Client W) this key l fnGet
    options def w res w' :
  client _ (client_get (Memcached.resolveKey this key)) w
    = (Fulfilled (Some res), w') ->
  truthy (value res) = false ->
  run client (Memcached.remember this key l fnGet options) w
    = (let '(r, w'', tr) :=
         run client
           (v ← fnGet;
            _ ← Memcached.put this key v
                  (Some (Memcached.lifetime_or_default this key l))
                  (Some (with_noreply options));
            mret v) w' in
       (r, w'', Sent (client_get (Memcached.resolveKey this key)) :: tr))
  /\ run client (Memcached.pull this key def) w
    = (Fulfilled (if nullish (value res) then def else value res), w',
       [Sent (client_get (Memcached.resolveKey this key))]).
Proof.
  intros Hget Hf. split.
  - rewrite run_remember. cbv zeta. rewrite Hget. simpl. by rewrite Hf.
  - rewrite run_pull. cbv zeta. rewrite Hget. simpl. by rewrite Hf.
Qed.

Lemma falsy_value_treated_as_miss_witness :
  let w := server_with [("visits", JNumber 0); ("total", JNumber 7)] in
  let this := cache in
  let key := KString "visits" in
  let fnGet := Memcached.get cache (KString "total") in
  let res := retrieved (JNumber 0) in
  memcache _ (client_get (Memcached.resolveKey this key)) w
    = (Fulfilled (Some res), w)
  /\ truthy (value res) = false
  /\ run memcache (Memcached.remember this key None fnGet None) w
    = (let '(r, w'', tr) :=
         run memcache
           (v ← fnGet;
            _ ← Memcached.put this key v
                  (Some (Memcached.lifetime_or_default this key None))
                  (Some (with_noreply None));
            mret v) w in
       (r, w'', Sent (client_get (Memcached.resolveKey this key)) :: tr))
  /\ run memcache (Memcached.pull this key (JString "none")) w
    = (Fulfilled (if nullish (value res) then JString "none" else value res), w,
       [Sent (client_get (Memcached.resolveKey this key))]).
Proof.
  intros w this key fnGet res.
  assert (Hget : memcache _ (client_get (Memcached.resolveKey this key)) w
                 = (Fulfilled (Some res), w)) by reflexivity.
  assert (Hf : truthy (value res) = false) by reflexivity.
  exact (conj Hget (conj Hf
    (falsy_value_treated_as_miss memcache this key None fnGet None
       (JString "none") w res w Hget Hf))).
Defined.

(** ** Keys *)

(** C4 as stated fails: an instance built with the scope "app" resolves the
    key "visits" to "visits"; the scope is no part of it. *)
Lemma scope_prefix_counterexample :
  ~ (forall this s key,
       scope this = Some s ->
       exists sep,
         Memcached.resolveKey this key
         = s +:+ sep +:+ Memcached.resolveKey (Memcached.new None None) key).
Proof.
  intros H.
  destruct (H scoped_cache "app" (KString "visits") eq_refl) as [sep Hsep].
  simpl in Hsep. discriminate Hsep.
Qed.

(** C4, amended.  The scope given to the constructor is stored and never
    read: with or without one, the key resolved is the caller's key, a
    string as it is and an array joined with "/", and that is the key of
    every call an operation makes, the store of [remember] and the delete
    of [pull] included; an instance with another scope runs the same
    programs. *)
Theorem resolved_key_ignores_scope table s key :
  let this := {| lifeTime := table; scope := s |} in
  let sent := match key with
              | KString k => k
              | KArray segments => String.concat "/" segments
              | KNumber k | KSymbol k => k
              end in
  Memcached.resolveKey this key = sent
  /\ first_key (Memcached.get this key) = Some sent
  /\ (forall v l o, first_key (Memcached.put this key v l o) = Some sent)
  /\ (forall v o, first_key (Memcached.forever this key v o) = Some sent)
  /\ (forall o, first_key (Memcached.delete this key o) = Some sent)
  /\ (forall o, first_key (Memcached.forget this key o) = Some sent)
  /\ (forall v l o, first_key (Memcached.add this key v l o) = Some sent)
  /\ (forall a l o, first_key (Memcached.increment this key a l o) = Some sent)
  /\ (forall a l o, first_key (Memcached.decrement this key a l o) = Some sent)
  /\ (forall l f o, first_key (Memcached.remember this key l f o) = Some sent)
  /\ (forall f o, first_key (Memcached.rememberForever this key f o) = Some sent)
  /\ (forall def, first_key (Memcached.pull this key def) = Some sent)
  /\ (forall v l o, first_key (Memcached.replace this key v l o) = Some sent)
  /\ (forall v l o, first_key (Memcached.append this key v l o) = Some sent)
  /\ (forall v l o, first_key (Memcached.prepend this key v l o) = Some sent)
  /\ (forall l o, first_key (Memcached.incLifetime this key l o) = Some sent)
  (* the one call of each single-call operation *)
  /\ Memcached.get this key
     = (res ← call (client_get sent); mret (from_option value JUndefined res))
  /\ (forall v l o,
        Memcached.put this key v l o
        = call (client_set sent v
                  (with_lifetime (Memcached.lifetime_or_default this key l) o)))
  /\ (forall v o,
        Memcached.forever this key v o
        = call (client_set sent v (with_lifetime (JNumber 0) o)))
  /\ (forall o, Memcached.delete this key o = call (client_delete sent o))
  /\ (forall o, Memcached.forget this key o = call (client_delete sent o))
  /\ (forall v l o,
        Memcached.add this key v l o
        = call (client_add sent v
                  (with_lifetime (Memcached.lifetime_or_default this key l) o)))
  /\ (forall a l o,
        Memcached.increment this key a l o
        = call (client_incr sent (default 1%float a)
                  (with_lifetime (Memcached.lifetime_or_default this key l) o)))
  /\ (forall a l o,
        Memcached.decrement this key a l o
        = call (client_decr sent (default 1%float a)
                  (with_lifetime (Memcached.lifetime_or_default this key l) o)))
  /\ (forall v l o,
        Memcached.replace this key v l o
        = call (client_replace sent v
                  (with_lifetime (Memcached.lifetime_or_default this key l) o)))
  /\ (forall v l o,
        Memcached.append this key v l o
        = call (client_append sent v
                  (with_lifetime (Memcached.lifetime_or_default this key l) o)))
  /\ (forall v l o,
        Memcached.prepend this key v l o
        = call (client_prepend sent v
                  (with_lifetime (Memcached.lifetime_or_default this key l) o)))
  /\ (forall l o,
        Memcached.incLifetime this key l o
        = call (client_touch sent (Memcached.lifetime_or_default this key l) o))
  (* every call of [remember] and of [pull], against any client *)
  /\ (forall (W : Type) (client : Client W) (w : W) l fnGet o,
        run client (Memcached.remember this key l fnGet o) w
        = match client _ (client_get sent) w with
          | (Rejected e, w') => (Rejected e, w', [Sent (client_get sent)])
          | (Fulfilled res, w') =>
              let inCache := from_option value JUndefined res in
              if truthy inCache
              then (Fulfilled inCache, w', [Sent (client_get sent)])
              else
                let '(r, w'', tr) :=
                  run client
                    (v ← fnGet;
                     _ ← call (client_set sent v
                                 (with_lifetime
                                    (Memcached.lifetime_or_default this key l)
                                    (Some (with_noreply o))));
                     mret v) w' in
                (r, w'', Sent (client_get sent) :: tr)
          end)
  /\ (forall (W : Type) (client : Client W) (w : W) def,
        run client (Memcached.pull this key def) w
        = match client _ (client_get sent) w with
          | (Rejected e, w') => (Rejected e, w', [Sent (client_get sent)])
          | (Fulfilled res, w') =>
              let val := from_option value JUndefined res in
              if truthy val then
                match client _ (client_delete sent None) w' with
                | (Fulfilled _, w'') =>
                    (Fulfilled (nullish_coalesce val def), w'',
                     [Sent (client_get sent); Sent (client_delete sent None)])
                | (Rejected e, w'') =>
                    (Rejected e, w'',
                     [Sent (client_get sent); Sent (client_delete sent None)])
                end
              else (Fulfilled (nullish_coalesce val def), w',
                    [Sent (client_get sent)])
          end)
  (* an instance with another scope runs the same programs *)
  /\ (forall s',
        let other := {| lifeTime := table; scope := s' |} in
        Memcached.resolveKey other key = Memcached.resolveKey this key
        /\ Memcached.get other key = Memcached.get this key
        /\ (forall v l o, Memcached.put other key v l o = Memcached.put this key v l o)
        /\ (forall v o, Memcached.forever other key v o = Memcached.forever this key v o)
        /\ (forall o, Memcached.delete other key o = Memcached.delete this key o)
        /\ (forall o, Memcached.forget other key o = Memcached.forget this key o)
        /\ (forall v l o, Memcached.add other key v l o = Memcached.add this key v l o)
        /\ (forall a l o, Memcached.increment other key a l o
                          = Memcached.increment this key a l o)
        /\ (forall a l o, Memcached.decrement other key a l o
                          = Memcached.decrement this key a l o)
        /\ (forall l f o, Memcached.remember other key l f o
                          = Memcached.remember this key l f o)
        /\ (forall f o, Memcached.rememberForever other key f o
                        = Memcached.rememberForever this key f o)
        /\ (forall def, Memcached.pull other key def = Memcached.pull this key def)
        /\ (forall v l o, Memcached.replace other key v l o
                          = Memcached.replace this key v l o)
        /\ (forall v l o, Memcached.append other key v l o
                          = Memcached.append this key v l o)
        /\ (forall v l o, Memcached.prepend other key v l o
                          = Memcached.prepend this key v l o)
        /\ (forall l o, Memcached.incLifetime other key l o
                        = Memcached.incLifetime this key l o)
        /\ (forall keys, Memcached.gets other keys = Memcached.gets this keys)
        /\ (forall delay noReply, Memcached.flush other delay noReply
                                  = Memcached.flush this delay noReply)
        /\ (forall command o, Memcached.cmd other command o
                              = Memcached.cmd this command o)).
Proof.
  intros this sent.
  assert (Hrk : Memcached.resolveKey this key = sent) by (by destruct key).
  split; [exact Hrk|].
  do 15 (split; [by destruct key|]).
  do 12 (split; [by destruct key|]).
  split; [|split; [|by repeat split]].
  - intros W client w l fnGet o. rewrite run_remember. cbv zeta. rewrite Hrk.
    destruct (client _ (client_get sent) w) as [[res|e] w']; [|done].
    destruct (truthy _); [done|].
    rewrite !run_bind. destruct (run client fnGet w') as [[[v|e] w2] tr]; [|done].
    cbv beta. rewrite !run_bind. unfold Memcached.put.
    by rewrite lifetime_or_default_again, Hrk.
  - intros W client w def. rewrite run_pull. cbv zeta. by rewrite Hrk.
Qed.

(** ** [flush] *)

(** With a delay, the command is [flush_all] followed by it. *)
Lemma flush_with_delay this delay noReply :
  Memcached.flush this (Some delay) noReply
  = call (client_cmd ("flush_all " +:+ delay)
            (Some {| noreply := from_option Is IsUndefined noReply |})).
Proof. reflexivity. Qed.

(** C5. [flush()] without a delay sends the text "flush_all undefined": the
    template literal prints the missing delay, where the specification has the
    operand left out. *)
Theorem flush_without_delay_sends_undefined {W} (client : Client W) this w :
  let sent := client_cmd "flush_all undefined" (Some {| noreply := IsUndefined |}) in
  Memcached.flush this None None = call sent
  /\ (run client (Memcached.flush this None None) w).2 = [Sent sent].
Proof.
  intros sent. split; [reflexivity|].
  change (Memcached.flush this None None) with (call sent).
  rewrite run_call. by destruct (client _ sent w) as [[x|e] w'].
Qed.

(** ** Lifetimes *)

(** X25. Called without a lifetime, on an instance the constructor made
    from a lifetime table, each store-like operation uses the lifetime the
    table has for the resolved key, and 0 when the table has none or none
    was given, as long as the resolved key is not the name of a member of
    [Object.prototype]: the call it sends carries that lifetime
    ([remember], which sends its store only on a miss, runs as it does
    when given that lifetime). *)
Theorem default_lifetime_from_table table scope key :
  let this := Memcached.new table scope in
  let rk := Memcached.resolveKey this key in
  Object_prototype rk = None ->
  let l := JNumber match default ∅ table !! rk with
                   | Some seconds => seconds
                   | None => 0%float
                   end in
  (forall v o, Memcached.put this key v None o
               = call (client_set rk v (with_lifetime l o)))
  /\ (forall v o, Memcached.add this key v None o
                  = call (client_add rk v (with_lifetime l o)))
  /\ (forall a o, Memcached.increment this key a None o
                  = call (client_incr rk (default 1%float a) (with_lifetime l o)))
  /\ (forall a o, Memcached.decrement this key a None o
                  = call (client_decr rk (default 1%float a) (with_lifetime l o)))
  /\ (forall v o, Memcached.replace this key v None o
                  = call (client_replace rk v (with_lifetime l o)))
  /\ (forall v o, Memcached.append this key v None o
                  = call (client_append rk v (with_lifetime l o)))
  /\ (forall v o, Memcached.prepend this key v None o
                  = call (client_prepend rk v (with_lifetime l o)))
  /\ (forall o, Memcached.incLifetime this key None o
                = call (client_touch rk l o))
  /\ (forall f o, Memcached.remember this key None f o
                  = Memcached.remember this key (Some l) f o).
Proof.
  intros this rk Hproto l.
  assert (Hl : Memcached.lifetime_or_default this key None = l).
  { unfold Memcached.lifetime_or_default, get_property, l. fold rk.
    rewrite Hproto. unfold this, Memcached.new. cbn [lifeTime].
    by destruct (default ∅ table !! rk). }
  assert (Hl' : Memcached.lifetime_or_default this key (Some l) = l)
    by reflexivity.
  unfold Memcached.put, Memcached.add, Memcached.increment, Memcached.decrement,
    Memcached.replace, Memcached.append, Memcached.prepend, Memcached.incLifetime,
    Memcached.remember.
  cbv zeta. rewrite Hl, Hl'. by repeat split.
Qed.

Lemma default_lifetime_from_table_witness :
  let this := Memcached.new (Some {[ "visits" := 60%float ]}) None in
  Object_prototype (Memcached.resolveKey this (KString "visits")) = None
  /\ (forall v o, Memcached.put this (KString "visits") v None o
                  = call (client_set "visits" v (with_lifetime (JNumber 60) o)))
  /\ (forall o, Memcached.incLifetime this (KString "visits") None o
                = call (client_touch "visits" (JNumber 60) o)).
Proof.
  intros this.
  assert (Hproto : Object_prototype (Memcached.resolveKey this (KString "visits"))
                   = None) by reflexivity.
  destruct (default_lifetime_from_table (Some {[ "visits" := 60%float ]}) None
              (KString "visits") Hproto)
    as (Hput & _ & _ & _ & _ & _ & _ & Htouch & _).
  exact (conj Hproto (conj Hput Htouch)).
Defined.

(** C6. Called without a lifetime, each store-like operation sends what
    [this.lifeTime[key] ?? 0] evaluates to on the table the constructor was
    given: the table's own entry for the resolved key; without one, the
    member of that name every plain object inherits from [Object.prototype],
    if there is one; and 0 otherwise.  So on an instance made with no
    lifetime table, [put("constructor", v)] sends as lifetime the function
    [Object], and [incLifetime("toString")] the function [toString], where
    the specification has 0 for a key the table has no entry for. *)
Theorem default_lifetime_inherited_member table scope key :
  let this := Memcached.new table scope in
  let rk := Memcached.resolveKey this key in
  let l := match default ∅ table !! rk with
           | Some seconds => JNumber seconds
           | None => default (JNumber 0) (Object_prototype rk)
           end in
  ((forall v o, Memcached.put this key v None o
                = call (client_set rk v (with_lifetime l o)))
   /\ (forall v o, Memcached.add this key v None o
                   = call (client_add rk v (with_lifetime l o)))
   /\ (forall a o, Memcached.increment this key a None o
                   = call (client_incr rk (default 1%float a) (with_lifetime l o)))
   /\ (forall a o, Memcached.decrement this key a None o
                   = call (client_decr rk (default 1%float a) (with_lifetime l o)))
   /\ (forall v o, Memcached.replace this key v None o
                   = call (client_replace rk v (with_lifetime l o)))
   /\ (forall v o, Memcached.append this key v None o
                   = call (client_append rk v (with_lifetime l o)))
   /\ (forall v o, Memcached.prepend this key v None o
                   = call (client_prepend rk v (with_lifetime l o)))
   /\ (forall o, Memcached.incLifetime this key None o
                 = call (client_touch rk l o))
   /\ (forall f o, Memcached.remember this key None f o
                   = Memcached.remember this key (Some l) f o))
  /\ (let bare := Memcached.new None None in
      lifeTime bare !! "constructor" = None
      /\ lifeTime bare !! "toString" = None
      /\ (forall v, Memcached.put bare (KString "constructor") v None None
                    = call (client_set "constructor" v
                              {| lifetime := Is (JFunction "Object");
                                 store_options := no_options |}))
      /\ Memcached.incLifetime bare (KString "toString") None None
         = call (client_touch "toString" (JFunction "toString") None)
      /\ (forall (W : Type) (client : Client W) (w : W) v,
            (run client (Memcached.put bare (KString "constructor") v None None) w).2
            <> [Sent (client_set "constructor" v
                        {| lifetime := Is (JNumber 0);
                           store_options := no_options |})])).
Proof.
  intros this rk l. split.
  - assert (Hl : Memcached.lifetime_or_default this key None = l).
    { unfold Memcached.lifetime_or_default, get_property, l. fold rk.
      unfold this, Memcached.new. cbn [lifeTime].
      destruct (default ∅ table !! rk); [done|].
      unfold Object_prototype. by repeat case_match. }
    assert (Hl' : Memcached.lifetime_or_default this key (Some l) = l).
    { unfold l. destruct (default ∅ table !! rk); [done|].
      unfold Object_prototype. by repeat case_match. }
    unfold Memcached.put, Memcached.add, Memcached.increment, Memcached.decrement,
      Memcached.replace, Memcached.append, Memcached.prepend, Memcached.incLifetime,
      Memcached.remember.
    cbv zeta. rewrite Hl, Hl'. by repeat split.
  - cbv zeta. repeat split.
    intros W client w v.
    change (Memcached.put (Memcached.new None None) (KString "constructor") v None None)
      with (call (client_set "constructor" v
                    {| lifetime := Is (JFunction "Object");
                       store_options := no_options |})).
    rewrite run_call.
    destruct (client _ _ w) as [[x|e] w']; simpl; intros H; by simplify_eq.
Qed.


(** ** [gets] *)

(** C7. [gets] resolves with one element per key asked for, in the order of
    the keys: the value the client's answer holds under that key, and
    [undefined] when the answer has no entry for it. *)
Theorem gets_matches_by_key {W} (client : Client W) this keys w data w' :
  client _ (client_gets keys) w = (Fulfilled data, w') ->
  exists result,
    run client (Memcached.gets this keys) w
      = (Fulfilled result, w', [Sent (client_gets keys)])
    /\ length result = length keys
    /\ forall (i : nat) (key : string),
         keys !! i = Some key ->
         result !! i = Some (match data !! key with
                             | Some response => value response
                             | None => JUndefined
                             end).
Proof.
  intros Hgets.
  exists ((fun key => from_option value JUndefined (data !! key)) <$> keys).
  split; [|split].
  - unfold Memcached.gets. rewrite run_bind, run_call, Hgets. reflexivity.
  - apply length_fmap.
  - intros i key Hi. rewrite list_lookup_fmap, Hi. simpl.
    by destruct (data !! key).
Qed.

Lemma gets_matches_by_key_witness :
  let w := server_with [("a", JString "1"); ("c", JString "3")] in
  let keys := ["c"; "b"; "a"] in
  let data : gmap string RetrievalCommandResponse :=
    {[ "a" := retrieved (JString "1"); "c" := retrieved (JString "3") ]} in
  memcache _ (client_gets keys) w = (Fulfilled data, w)
  /\ exists result,
      run memcache (Memcached.gets cache keys) w
        = (Fulfilled result, w, [Sent (client_gets keys)])
      /\ length result = length keys
      /\ forall (i : nat) (key : string),
           keys !! i = Some key ->
           result !! i = Some (match data !! key with
                               | Some response => value response
                               | None => JUndefined
                               end).
Proof.
  intros w keys data.
  assert (Hgets : memcache _ (client_gets keys) w = (Fulfilled data, w))
    by (vm_compute; reflexivity).
  exact (conj Hgets (gets_matches_by_key memcache cache keys w data w Hgets)).
Defined.

(** With the in-memory client the answer of [gets] holds, under each key
    asked for, what the server stores under it, so the elements of the
    result are the stored values. *)
Lemma memcache_gets_lookup (w : Server) (keys : list string) (k : string) :
  (list_to_map
     (omap (fun k => (fun v => (k, retrieved v)) <$> items w !! k) keys)
   : gmap string RetrievalCommandResponse) !! k
  = if decide (k ∈ keys) then retrieved <$> items w !! k else None.
Proof.
  induction keys as [|a keys IH].
  - rewrite decide_False by apply not_elem_of_nil. apply lookup_empty.
  - cbn [omap list_omap]. change (list_omap ?f ?l) with (omap f l).
    destruct (decide (a = k)) as [->|Hne].
    + rewrite decide_True by (apply elem_of_cons; by left).
      destruct (items w !! k) as [v|] eqn:Hk; simpl.
      * apply lookup_insert_eq.
      * rewrite IH. by case_decide.
    + assert (Hk : (list_to_map
          (omap (fun k => (fun v => (k, retrieved v)) <$> items w !! k) keys)
          : gmap string RetrievalCommandResponse) !! k
        = if decide (k ∈ a :: keys) then retrieved <$> items w !! k else None).
      { rewrite IH. destruct (decide (k ∈ keys)) as [Hin|Hin].
        - rewrite decide_True by (apply elem_of_cons; by right). done.
        - rewrite decide_False; [done|].
          apply not_elem_of_cons. split; [congruence|done]. }
      destruct (items w !! a) as [v|]; simpl; [|done].
      by rewrite lookup_insert_ne.
Qed.

Lemma gets_from_memcache this (keys : list string) (w : Server) :
  run memcache (Memcached.gets this keys) w
  = (Fulfilled ((fun key => default JUndefined (items w !! key)) <$> keys),
     w, [Sent (client_gets keys)]).
Proof.
  unfold Memcached.gets. rewrite run_bind, run_call. simpl.
  do 2 f_equal. f_equal. apply list_fmap_ext.
  intros i key Hin. rewrite memcache_gets_lookup.
  rewrite decide_True by (apply list_elem_of_lookup; eauto).
  by destruct (items w !! key).
Qed.

(** ** The store of [remember] *)

(** [{ noreply: true, ...options }]: [true] unless [options] has a
    [noreply] of its own. *)
Lemma noreply_with_noreply options :
  noreply (with_noreply options)
  = match options with
    | Some o => match noreply o with
                | Omitted => Is true
                | own => own
                end
    | None => Is true
    end.
Proof. destruct options as [o|]; [|done]. simpl. by destruct (noreply o). Qed.

(** C9 as stated fails: a store the client rejects is not silent.  With a
    client whose reads are answered and whose other commands time out,
    [remember] is rejected on a miss although its store carries
    [noreply: true]. *)
Lemma rejected_store_counterexample :
  ~ (forall (W : Type) (client : Client W) (w w1 w2 : W) this key l fnGet
            options res v tr,
       client _ (client_get (Memcached.resolveKey this key)) w
         = (Fulfilled res, w1) ->
       truthy (from_option value JUndefined res) = false ->
       run client fnGet w1 = (Fulfilled v, w2, tr) ->
       noreply (with_noreply options) = Is true ->
       (run client (Memcached.remember this key l fnGet options) w).1.1
       = Fulfilled v).
Proof.
  intros H.
  specialize (H Server reads_only (server_with []) (server_with [])
                (server_with []) cache (KString "visits") None
                (Resolve (JNumber 7)) None None (JNumber 7) []
                eq_refl eq_refl eq_refl eq_refl).
  vm_compute in H. discriminate H.
Qed.

(** C9, amended.  On a miss [remember] sends its store with [noreply] set
    to [true] unless the caller's options have a [noreply] of their own,
    and awaits the promise of the store: when that is fulfilled, [remember]
    resolves with the computed value whatever the promise was fulfilled
    with; when it is rejected, [remember] is rejected for the same
    reason. *)
Theorem remember_stores_with_noreply {W} (client : Client W) this key l fnGet
    options w res w1 v w2 tr :
  let rk := Memcached.resolveKey this key in
  let o := with_lifetime (Memcached.lifetime_or_default this key l)
             (Some (with_noreply options)) in
  let sent := Sent (client_get rk) :: tr ++ [Sent (client_set rk v o)] in
  client _ (client_get rk) w = (Fulfilled res, w1) ->
  truthy (from_option value JUndefined res) = false ->
  run client fnGet w1 = (Fulfilled v, w2, tr) ->
  noreply o = match options with
              | Some own => match noreply own with
                            | Omitted => Is true
                            | given => given
                            end
              | None => Is true
              end
  /\ run client (Memcached.remember this key l fnGet options) w
     = match client _ (client_set rk v o) w2 with
       | (Fulfilled outcome, w3) => (Fulfilled v, w3, sent)
       | (Rejected reason, w3) => (Rejected reason, w3, sent)
       end.
Proof.
  intros rk o sent Hget Hfalsy Hf. split.
  - apply noreply_with_noreply.
  - rewrite run_remember. cbv zeta. fold rk. rewrite Hget, Hfalsy.
    rewrite run_bind, Hf. cbv beta. rewrite run_bind.
    unfold Memcached.put. rewrite run_call, lifetime_or_default_again.
    fold rk. fold o.
    by destruct (client _ (client_set rk v o) w2) as [[outcome|reason] w3].
Qed.

(** An instance: against a server that is out of memory the store fails
    at the server, the client fulfils its promise under [noreply], and
    [remember] resolves with the computed value. *)
Lemma remember_stores_with_noreply_witness :
  let w := {| items := ∅; out_of_memory := true |} in
  let this := cache in
  let key := KString "visits" in
  let rk := Memcached.resolveKey this key in
  let v := JNumber 7 in
  let o := with_lifetime (Memcached.lifetime_or_default this key None)
             (Some (with_noreply None)) in
  let sent := Sent (client_get rk) :: [] ++ [Sent (client_set rk v o)] in
  memcache _ (client_get rk) w = (Fulfilled None, w)
  /\ truthy (from_option value JUndefined None) = false
  /\ run memcache (Resolve v) w = (Fulfilled v, w, [])
  /\ noreply o = Is true
  /\ run memcache (Memcached.remember this key None (Resolve v) None) w
     = match memcache _ (client_set rk v o) w with
       | (Fulfilled outcome, w3) => (Fulfilled v, w3, sent)
       | (Rejected reason, w3) => (Rejected reason, w3, sent)
       end.
Proof.
  intros w this key rk v o sent.
  assert (H1 : memcache _ (client_get rk) w = (Fulfilled None, w))
    by reflexivity.
  assert (H2 : truthy (from_option value JUndefined None) = false)
    by reflexivity.
  assert (H3 : run memcache (Resolve v) w = (Fulfilled v, w, []))
    by reflexivity.
  exact (conj H1 (conj H2 (conj H3
    (remember_stores_with_noreply memcache this key None (Resolve v) None
       w None w v w [] H1 H2 H3)))).
Defined.

(** When the caller's options set [noreply] to [false], the same failed
    store rejects [remember]. *)
Example remember_store_failure_seen_without_noreply :
  run memcache
    (Memcached.remember cache (KString "visits") None (Resolve (JNumber 7))
       (Some {| common := {| noreply := Is false |};
                ignoreNotStored := Omitted;
                compress := Omitted |}))
    {| items := ∅; out_of_memory := true |}
  = (Rejected (JString "SERVER_ERROR out of memory storing object"),
     {| items := ∅; out_of_memory := true |},
     [Sent (client_get "visits");
      Sent (client_set "visits" (JNumber 7)
              {| lifetime := Is (JNumber 60);
                 store_options :=
                   {| common := {| noreply := Is false |};
                      ignoreNotStored := Omitted;
                      compress := Omitted |} |})]).
Proof. vm_compute. reflexivity. Qed.

(** With the in-memory client, a store sent with [noreply] is fulfilled with
    [undefined] whatever becomes of it at the server. *)
Lemma memcache_noreply_store_fulfils key v (o : ClientStoreOptions) (w : Server) :
  wants_noreply o = true ->
  exists w', memcache _ (client_set key v o) w = (Fulfilled JUndefined, w').
Proof.
  intros Hnr. simpl. unfold store, answer. rewrite Hnr.
  destruct (out_of_memory w); eauto.
Qed.

(** ** Whole numbers as Numbers

    On integers the arithmetic of Numbers is exact as long as the results
    stay below 2^53 in magnitude.  The lemmas follow the specification of
    binary64 operations ([SpecFloat]): a non-zero integer is a 53-bit
    mantissa at a non-positive exponent, and rounding a mantissa whose
    dropped bits are all zero changes nothing. *)

Section WholeNumbers.
Local Open Scope Z_scope.

Ltac forget_pows :=
  repeat match goal with
         | |- context [Z.pow 2 ?x] =>
             let P := fresh "P" in set (P := Z.pow 2 x) in *; clearbody P
         | H : context [Z.pow 2 ?x] |- _ =>
             let P := fresh "P" in set (P := Z.pow 2 x) in *; clearbody P
         end.

(** [digits2_pos p] is the number of binary digits of [p]. *)
Lemma digits2_pos_bounds (p : positive) :
  2 ^ (Zpos (digits2_pos p) - 1) <= Zpos p < 2 ^ Zpos (digits2_pos p).
Proof.
  induction p as [p IH|p IH|]; cbn [digits2_pos].
  - rewrite Pos2Z.inj_succ, (Pos2Z.inj_xI p).
    replace (Z.succ (Zpos (digits2_pos p)) - 1) with (Z.succ (Zpos (digits2_pos p) - 1)) by lia.
    rewrite !Z.pow_succ_r by lia. forget_pows. lia.
  - rewrite Pos2Z.inj_succ, (Pos2Z.inj_xO p).
    replace (Z.succ (Zpos (digits2_pos p)) - 1) with (Z.succ (Zpos (digits2_pos p) - 1)) by lia.
    rewrite !Z.pow_succ_r by lia. forget_pows. lia.
  - simpl. lia.
Qed.

Lemma digits2_pos_unique (p : positive) (d : Z) :
  2 ^ (d - 1) <= Zpos p < 2 ^ d -> Zpos (digits2_pos p) = d.
Proof.
  intros [Hlo Hhi]. pose proof (digits2_pos_bounds p) as [Hlo' Hhi'].
  assert (0 < d).
  { destruct (Z.lt_ge_cases 0 d) as [|Hd]; [done|].
    destruct (Z.eq_dec d 0) as [->|]; [simpl in Hhi; lia|].
    rewrite Z.pow_neg_r in Hhi by lia. lia. }
  assert (d - 1 < Zpos (digits2_pos p)).
  { apply (Z.pow_lt_mono_r_iff 2); [lia|lia|]. forget_pows. lia. }
  assert (Zpos (digits2_pos p) - 1 < d).
  { apply (Z.pow_lt_mono_r_iff 2); [lia|lia|]. forget_pows. lia. }
  lia.
Qed.

Lemma iter_pos_nat {A} (f : A -> A) (n : positive) (x : A) :
  SpecFloat.iter_pos f n x = Nat.iter (Pos.to_nat n) f x.
Proof.
  revert x. induction n as [n IH|n IH|]; intros x; cbn [SpecFloat.iter_pos].
  - rewrite !IH, Pos2Nat.inj_xI.
    replace (2 * Pos.to_nat n)%nat with (Pos.to_nat n + Pos.to_nat n)%nat by lia.
    rewrite Nat.iter_succ_r, Nat.iter_add. reflexivity.
  - rewrite !IH, Pos2Nat.inj_xO.
    replace (2 * Pos.to_nat n)%nat with (Pos.to_nat n + Pos.to_nat n)%nat by lia.
    rewrite Nat.iter_add. reflexivity.
  - reflexivity.
Qed.

Lemma shr_exact (c : positive) (n : nat) :
  Nat.iter n shr_1 {| shr_m := Zpos c * 2 ^ Z.of_nat n; shr_r := false; shr_s := false |}
  = {| shr_m := Zpos c; shr_r := false; shr_s := false |}.
Proof.
  revert c. induction n as [|n IH]; intros c.
  - cbn [Nat.iter nat_rect Z.of_nat]. by rewrite Z.pow_0_r, Z.mul_1_r.
  - rewrite Nat.iter_succ_r, Nat2Z.inj_succ, Z.pow_succ_r by lia.
    pose proof (Z.pow_pos_nonneg 2 (Z.of_nat n) ltac:(lia) ltac:(lia)) as Hpow.
    destruct (2 ^ Z.of_nat n) as [|q|q] eqn:Hq; try lia.
    replace (Zpos c * (2 * Zpos q)) with (Zpos (c * q)~0) by lia.
    cbn [shr_1 orb]. apply IH.
Qed.

Lemma Zdigits2_unique (z d : Z) :
  2 ^ (d - 1) <= z < 2 ^ d -> 0 < z -> Zdigits2 z = d.
Proof.
  intros Hb Hz. destruct z as [|p|p]; try lia.
  by apply digits2_pos_unique.
Qed.

(** Rounding a 53-bit mantissa followed by [j] zero bits is exact. *)
Lemma binary_round_aux_exact (s : bool) (c : positive) (j e : Z) :
  0 <= j ->
  2 ^ 52 <= Zpos c < 2 ^ 53 ->
  -1074 <= e + j <= 971 ->
  binary_round_aux prec emax s (Zpos c * 2 ^ j) e loc_Exact
  = S754_finite s c (e + j).
Proof.
  intros Hj Hc He.
  assert (Hpos : 0 < Zpos c * 2 ^ j).
  { pose proof (Z.pow_pos_nonneg 2 j ltac:(lia) Hj). nia. }
  assert (Hd : Zdigits2 (Zpos c * 2 ^ j) = 53 + j).
  { apply Zdigits2_unique; [|done].
    replace (53 + j - 1) with (52 + j) by lia.
    rewrite !Z.pow_add_r by lia.
    pose proof (Z.pow_pos_nonneg 2 j ltac:(lia) Hj).
    forget_pows. nia. }
  assert (Hdc : Zdigits2 (Zpos c) = 53).
  { apply Zdigits2_unique; [exact Hc|lia]. }
  unfold binary_round_aux, shr_fexp. rewrite Hd.
  assert (Hf : fexp prec emax (53 + j + e) - e = j).
  { unfold fexp, emin, prec, emax. lia. }
  rewrite Hf. cbn [shr_record_of_loc].
  assert (Hshr : shr {| shr_m := Zpos c * 2 ^ j; shr_r := false; shr_s := false |} e j
                 = ({| shr_m := Zpos c; shr_r := false; shr_s := false |}, e + j)).
  { destruct j as [|jp|jp]; [| |lia].
    - cbn [shr]. by rewrite Z.pow_0_r, Z.mul_1_r, Z.add_0_r.
    - cbn [shr]. rewrite iter_pos_nat.
      rewrite <- (positive_nat_Z jp) at 1. by rewrite shr_exact. }
  rewrite Hshr. cbn [shr_m loc_of_shr_record round_nearest_even shr_record_of_loc].
  rewrite Hdc.
  assert (Hf' : fexp prec emax (53 + (e + j)) - (e + j) = 0).
  { unfold fexp, emin, prec, emax. lia. }
  rewrite Hf'. cbn [shr shr_m].
  unfold emax, prec. by rewrite Zle_imp_le_bool by lia.
Qed.

Lemma Zpos_iter_xO (p d : positive) :
  Zpos (Pos.iter xO p d) = Zpos p * 2 ^ Zpos d.
Proof.
  induction d as [|d IH] using Pos.peano_ind.
  - cbn [Pos.iter]. change (2 ^ 1) with 2. lia.
  - rewrite Pos.iter_succ, Pos2Z.inj_succ, Z.pow_succ_r by lia.
    rewrite (Pos2Z.inj_xO (Pos.iter xO p d)), IH. ring.
Qed.

Lemma Prim2SF_of_Z (z : Z) :
  Z.abs z < 2 ^ 63 -> Prim2SF (of_Z z) = SF_of_Z z.
Proof.
  intros Hz. unfold of_Z, SF_of_Z.
  assert (H : Prim2SF (of_uint63 (Uint63.of_Z (Z.abs z)))
              = binary_normalize prec emax (Z.abs z) 0 false).
  { rewrite of_uint63_spec, Uint63.of_Z_spec, Z.mod_small; [done|].
    change Uint63Axioms.wB with (2 ^ 63). lia. }
  destruct (z <? 0); [rewrite opp_spec|]; by rewrite H.
Qed.

(** A non-zero integer below 2^53 in magnitude is the 53-bit mantissa
    [|z| * 2^(53 - d)] at exponent [d - 53], [d] its number of digits. *)
Lemma SF_of_Z_finite (z : Z) :
  z <> 0 -> Z.abs z < 2 ^ 53 ->
  let d := Zdigits2 z in
  exists c : positive,
    Zpos c = Z.abs z * 2 ^ (53 - d)
    /\ 2 ^ 52 <= Zpos c < 2 ^ 53
    /\ 1 <= d <= 53
    /\ 2 ^ (d - 1) <= Z.abs z < 2 ^ d
    /\ SF_of_Z z = S754_finite (z <? 0) c (d - 53).
Proof.
  intros Hz Hlt d.
  assert (Hp : exists p, Z.abs z = Zpos p /\ d = Zpos (digits2_pos p)).
  { destruct z as [|p|p]; [done| |]; by exists p. }
  destruct Hp as (p & Hp & Hd).
  pose proof (digits2_pos_bounds p) as Hb. rewrite <- Hd, <- Hp in Hb.
  assert (Hd1 : 1 <= d) by lia.
  assert (Hd53 : d <= 53).
  { assert (d - 1 < 53); [|lia].
    apply (Z.pow_lt_mono_r_iff 2); [lia|lia|]. forget_pows. lia. }
  assert (Hc : exists c : positive,
             Zpos c = Zpos p * 2 ^ (53 - d)
             /\ shl_align p 0 (fexp prec emax (d + 0)) = (c, d - 53)).
  { unfold shl_align, fexp, emin, prec, emax.
    replace (Z.max (d + 0 - 53) (3 - 1024 - 53) - 0) with (d - 53) by lia.
    replace (Z.max (d + 0 - 53) (3 - 1024 - 53)) with (d - 53) by lia.
    destruct (d - 53) as [|q|q] eqn:Hq; [|lia|].
    - exists p. replace (53 - d) with 0 by lia. split; [lia|done].
    - exists (Pos.iter xO p q). split; [|done].
      rewrite Zpos_iter_xO. f_equal. f_equal. lia. }
  destruct Hc as (c & Hc & Halign).
  assert (Hc53 : 2 ^ 52 <= Zpos c < 2 ^ 53).
  { assert (E52 : 2 ^ 52 = 2 ^ (d - 1) * 2 ^ (53 - d)).
    { rewrite <- Z.pow_add_r by lia. f_equal. lia. }
    assert (E53 : 2 ^ 53 = 2 ^ d * 2 ^ (53 - d)).
    { rewrite <- Z.pow_add_r by lia. f_equal. lia. }
    rewrite E52, E53, Hc, <- Hp. clear E52 E53 Hlt.
    pose proof (Z.pow_pos_nonneg 2 (53 - d) ltac:(lia) ltac:(lia)).
    forget_pows. nia. }
  exists c. rewrite <- Hp in Hc. repeat split; try lia; try apply Hb; try apply Hc53.
  unfold SF_of_Z. rewrite Hp. unfold binary_normalize, binary_round.
  rewrite <- Hd, Halign.
  assert (Hr : forall s, binary_round_aux prec emax s (Zpos c) (d - 53) loc_Exact
                         = S754_finite s c (d - 53)).
  { intros s. rewrite <- (Z.mul_1_r (Zpos c)), <- (Z.pow_0_r 2).
    rewrite binary_round_aux_exact; [|lia|done|lia].
    by rewrite Z.add_0_r. }
  rewrite Hr. destruct z; [done|done|]. reflexivity.
Qed.

Lemma SF_of_Z_mul (a b : Z) :
  0 < a < 2 ^ 53 -> a * Z.abs b < 2 ^ 53 ->
  SFmul prec emax (SF_of_Z a) (SF_of_Z b) = SF_of_Z (a * b).
Proof.
  intros Ha Hab.
  destruct (Z.eq_dec b 0) as [->|Hb].
  { destruct (SF_of_Z_finite a) as (ca & _ & _ & _ & _ & ->); [lia|lia|].
    rewrite Z.mul_0_r. change (SF_of_Z 0) with (S754_zero false).
    replace (a <? 0) with false by lia. reflexivity. }
  assert (Hsa : (a <? 0) = false) by lia.
  assert (Hsab : (a * b <? 0) = (b <? 0)).
  { destruct (Z.ltb_spec b 0); [apply Z.ltb_lt|apply Z.ltb_ge]; nia. }
  destruct (SF_of_Z_finite a) as (ca & Hca & _ & Hda & Hba & ->); [lia|nia|].
  destruct (SF_of_Z_finite b) as (cb & Hcb & _ & Hdb & Hbb & ->); [lia|nia|].
  destruct (SF_of_Z_finite (a * b)) as (cp & Hcp & Hcp53 & Hdp & Hbp & ->);
    [nia|rewrite Z.abs_mul; lia|].
  rewrite Z.abs_mul in Hcp, Hbp.
  replace (Z.abs a) with a in * by lia.
  set (da := Zdigits2 a) in *. set (db := Zdigits2 b) in *.
  set (dp := Zdigits2 (a * b)) in *.
  assert (Hdp' : da + db - 2 < dp).
  { apply (Z.pow_lt_mono_r_iff 2); [lia|lia|].
    replace (da + db - 2) with ((da - 1) + (db - 1)) by lia.
    rewrite Z.pow_add_r by lia.
    pose proof (Z.pow_pos_nonneg 2 (da - 1) ltac:(lia) ltac:(lia)).
    pose proof (Z.pow_pos_nonneg 2 (db - 1) ltac:(lia) ltac:(lia)).
    forget_pows. nia. }
  unfold SFmul. rewrite Hsa, Hsab. cbn [xorb].
  assert (Hm : Zpos (ca * cb) = Zpos cp * 2 ^ (53 + dp - da - db)).
  { assert (Hpow : 2 ^ (53 - da) * 2 ^ (53 - db)
                     = 2 ^ (53 - dp) * 2 ^ (53 + dp - da - db)).
    { rewrite <- !Z.pow_add_r by lia. f_equal. lia. }
    rewrite Pos2Z.inj_mul, Hca, Hcb, Hcp.
    transitivity (a * Z.abs b * (2 ^ (53 - da) * 2 ^ (53 - db))); [ring|].
    rewrite Hpow. ring. }
  rewrite Hm, binary_round_aux_exact; [|lia|done|lia].
  f_equal. lia.
Qed.

Lemma float_mul_of_Z (a b : Z) :
  0 < a < 2 ^ 53 -> a * Z.abs b < 2 ^ 53 ->
  PrimFloat.mul (of_Z a) (of_Z b) = of_Z (a * b).
Proof.
  intros Ha Hab. apply Prim2SF_inj. rewrite mul_spec. unfold SF64mul.
  rewrite !Prim2SF_of_Z.
  - by apply SF_of_Z_mul.
  - rewrite Z.abs_mul. assert (2 ^ 53 < 2 ^ 63) by done. lia.
  - assert (2 ^ 53 < 2 ^ 63) by done. nia.
  - assert (2 ^ 53 < 2 ^ 63) by done. nia.
Qed.

(** An integer [P] given as [P * 2^k] at exponent [-k] normalises to the
    Number of [P]. *)
Lemma binary_normalize_exact (P k : Z) :
  Z.abs P < 2 ^ 53 -> 0 <= k <= 1074 ->
  binary_normalize prec emax (P * 2 ^ k) (- k) false = SF_of_Z P.
Proof.
  intros HP Hk.
  destruct (Z.eq_dec P 0) as [->|HP0]; [done|].
  destruct (SF_of_Z_finite P) as (c & Hc & Hc53 & Hd & Hb & ->); [done|done|].
  set (d := Zdigits2 P) in *.
  pose proof (Z.pow_pos_nonneg 2 k ltac:(lia) ltac:(lia)) as Hpk.
  assert (Hm : exists m, Z.abs (P * 2 ^ k) = Zpos m
                         /\ binary_normalize prec emax (P * 2 ^ k) (- k) false
                            = binary_round prec emax (P <? 0) m (- k)).
  { destruct (P * 2 ^ k) as [|m|m] eqn:Hm.
    - nia.
    - exists m. split; [done|]. replace (P <? 0) with false; [done|].
      symmetry. apply Z.ltb_ge. nia.
    - exists m. split; [done|]. replace (P <? 0) with true; [done|].
      symmetry. apply Z.ltb_lt. nia. }
  destruct Hm as (m & Hm & ->). rewrite Z.abs_mul, (Z.abs_eq (2 ^ k)) in Hm by lia.
  assert (Hdm : Zpos (digits2_pos m) = d + k).
  { apply digits2_pos_unique. rewrite <- Hm.
    replace (d + k - 1) with ((d - 1) + k) by lia.
    rewrite !Z.pow_add_r by lia. clear Hc Hc53 HP. forget_pows. nia. }
  unfold binary_round. rewrite Hdm.
  assert (Hf : fexp prec emax (d + k + - k) = d - 53).
  { unfold fexp, emin, prec, emax. lia. }
  rewrite Hf. unfold shl_align.
  destruct (d - 53 - - k) as [|q|q] eqn:Hq.
  - replace (Zpos m) with (Zpos c * 2 ^ 0).
    + rewrite binary_round_aux_exact; [|lia|done|lia]. f_equal. lia.
    + rewrite Z.pow_0_r, Z.mul_1_r, Hc, <- Hm. f_equal. f_equal. lia.
  - replace (Zpos m) with (Zpos c * 2 ^ Zpos q).
    + rewrite binary_round_aux_exact; [|lia|done|lia]. f_equal. lia.
    + rewrite Hc, <- Hm, <- Z.mul_assoc, <- Z.pow_add_r by lia.
      f_equal. f_equal. lia.
  - replace (Zpos (Pos.iter xO m q)) with (Zpos c * 2 ^ 0).
    + rewrite binary_round_aux_exact; [|lia|done|lia]. f_equal. lia.
    + rewrite Z.pow_0_r, Z.mul_1_r, Zpos_iter_xO, Hc, <- Hm.
      rewrite <- Z.mul_assoc, <- Z.pow_add_r by lia. f_equal. f_equal. lia.
Qed.

Lemma shl_align_fst (m : positive) (e e' : Z) :
  e' <= e -> Zpos (fst (shl_align m e e')) = Zpos m * 2 ^ (e - e').
Proof.
  intros He. unfold shl_align.
  destruct (e' - e) as [|q|q] eqn:Hq; [|lia|]; cbn [fst].
  - replace (e - e') with 0 by lia. by rewrite Z.pow_0_r, Z.mul_1_r.
  - rewrite Zpos_iter_xO. f_equal. f_equal. lia.
Qed.

Lemma SF_of_Z_add (a b : Z) :
  Z.abs a < 2 ^ 53 -> Z.abs b < 2 ^ 53 -> Z.abs (a + b) < 2 ^ 53 ->
  SFadd prec emax (SF_of_Z a) (SF_of_Z b) = SF_of_Z (a + b).
Proof.
  intros Ha Hb Hab.
  destruct (Z.eq_dec a 0) as [->|Ha0].
  { change (SF_of_Z 0) with (S754_zero false). rewrite Z.add_0_l.
    destruct (Z.eq_dec b 0) as [->|Hb0]; [done|].
    by destruct (SF_of_Z_finite b) as (cb & _ & _ & _ & _ & ->). }
  destruct (Z.eq_dec b 0) as [->|Hb0].
  { change (SF_of_Z 0) with (S754_zero false). rewrite Z.add_0_r.
    by destruct (SF_of_Z_finite a) as (ca & _ & _ & _ & _ & ->). }
  destruct (SF_of_Z_finite a) as (ca & Hca & _ & Hda & _ & ->); [done|done|].
  destruct (SF_of_Z_finite b) as (cb & Hcb & _ & Hdb & _ & ->); [done|done|].
  set (da := Zdigits2 a) in *. set (db := Zdigits2 b) in *.
  cbn [SFadd]. set (ez := Z.min (da - 53) (db - 53)).
  rewrite !shl_align_fst by lia. rewrite Hca, Hcb.
  assert (Hsa : cond_Zopp (a <? 0) (Z.abs a * 2 ^ (53 - da) * 2 ^ (da - 53 - ez))
                = a * 2 ^ (- ez)).
  { rewrite <- Z.mul_assoc, <- Z.pow_add_r by lia.
    replace (53 - da + (da - 53 - ez)) with (- ez) by lia.
    unfold cond_Zopp. destruct (Z.ltb_spec a 0); lia. }
  assert (Hsb : cond_Zopp (b <? 0) (Z.abs b * 2 ^ (53 - db) * 2 ^ (db - 53 - ez))
                = b * 2 ^ (- ez)).
  { rewrite <- Z.mul_assoc, <- Z.pow_add_r by lia.
    replace (53 - db + (db - 53 - ez)) with (- ez) by lia.
    unfold cond_Zopp. destruct (Z.ltb_spec b 0); lia. }
  rewrite Hsa, Hsb, <- Z.mul_add_distr_r.
  rewrite <- (Z.opp_involutive ez) at 2.
  apply binary_normalize_exact; lia.
Qed.

Lemma float_add_of_Z (a b : Z) :
  Z.abs a < 2 ^ 53 -> Z.abs b < 2 ^ 53 -> Z.abs (a + b) < 2 ^ 53 ->
  PrimFloat.add (of_Z a) (of_Z b) = of_Z (a + b).
Proof.
  intros Ha Hb Hab. apply Prim2SF_inj. rewrite add_spec. unfold SF64add.
  assert (2 ^ 53 < 2 ^ 63) by done.
  rewrite !Prim2SF_of_Z by lia. by apply SF_of_Z_add.
Qed.

Lemma truncate_of_Z (k : Z) : Z.abs k < 2 ^ 53 -> truncate (of_Z k) = k.
Proof.
  intros Hk. unfold truncate.
  assert (2 ^ 53 < 2 ^ 63) by done. rewrite Prim2SF_of_Z by lia.
  destruct (Z.eq_dec k 0) as [->|Hk0]; [done|].
  destruct (SF_of_Z_finite k) as (c & Hc & _ & Hd & _ & ->); [done|done|].
  set (d := Zdigits2 k) in *.
  assert (Ha : (if 0 <=? d - 53 then Z.shiftl (Zpos c) (d - 53)
                else Z.shiftr (Zpos c) (- (d - 53))) = Z.abs k).
  { destruct (Z.leb_spec 0 (d - 53)).
    - assert (Hd53 : d = 53) by lia. rewrite Hd53 in *.
      by rewrite Z.shiftl_0_r, Hc, Z.pow_0_r, Z.mul_1_r.
    - rewrite Z.shiftr_div_pow2 by lia. rewrite Hc.
      replace (- (d - 53)) with (53 - d) by lia.
      apply Z.div_mul. apply Z.pow_nonzero; lia. }
  cbv zeta. rewrite Ha. destruct (Z.ltb_spec k 0); lia.
Qed.

Lemma TimeClip_of_Z (k : Z) :
  Z.abs k <= 8640000000000000 -> TimeClip (of_Z k) = of_Z k.
Proof.
  intros Hk. assert (H53 : 2 ^ 53 = 9007199254740992) by reflexivity.
  assert (H63 : 2 ^ 53 < 2 ^ 63) by done.
  unfold TimeClip, is_nan, is_infinity.
  rewrite !FloatAxioms.eqb_spec, FloatAxioms.ltb_spec, !abs_spec.
  rewrite Prim2SF_of_Z by lia.
  change (Prim2SF infinity) with (S754_infinity false).
  change (Prim2SF 8.64e15) with (S754_finite false 8640000000000000 0).
  rewrite truncate_of_Z by lia.
  destruct (Z.eq_dec k 0) as [->|Hk0]; [done|].
  destruct (SF_of_Z_finite k) as (c & Hc & _ & Hd & _ & ->); [done|lia|].
  set (d := Zdigits2 k) in *.
  assert (Hrefl : SFeqb (S754_finite (k <? 0) c (d - 53))
                        (S754_finite (k <? 0) c (d - 53)) = true).
  { unfold SFeqb, SFcompare.
    rewrite Z.compare_refl, Pos.compare_cont_refl. by destruct (k <? 0). }
  rewrite Hrefl. cbn [negb orb SFabs SFeqb SFcompare].
  assert (Hlt : SFltb (S754_finite false 8640000000000000 0)
                      (S754_finite false c (d - 53)) = false).
  { unfold SFltb, SFcompare.
    destruct (Z.compare_spec 0 (d - 53)) as [He|He|He]; [|lia|done].
    replace (Pos.compare_cont Eq 8640000000000000 c)
      with (8640000000000000 ?= c)%positive by done.
    replace (53 - d) with 0 in Hc by lia.
    rewrite Z.pow_0_r, Z.mul_1_r in Hc.
    destruct (Pos.compare_spec 8640000000000000 c) as [Hcmp|Hcmp|Hcmp];
      [done| |done].
    lia. }
  by rewrite Hlt.
Qed.

End WholeNumbers.

(** ** The clock *)

(** The product of two Numbers does not depend on their order. *)
Lemma float_mul_comm (a b : float) : PrimFloat.mul a b = PrimFloat.mul b a.
Proof.
  apply Prim2SF_inj. rewrite !mul_spec. unfold SF64mul, SFmul.
  destruct (Prim2SF a) as [sa|sa| |sa ma ea], (Prim2SF b) as [sb|sb| |sb mb eb];
    try reflexivity; rewrite (xorb_comm sa sb); try reflexivity.
  by rewrite (Pos.mul_comm ma mb), (Z.add_comm ea eb).
Qed.

(** C10 as stated fails: on [new Now(0)], [addDays(0.3)] moves the time to
    25919999 ms and returns 25919.999, whereas [addSeconds(86400 * 0.3)]
    moves it to 25920000 ms and returns 25920.  [addDays] multiplies by 24,
    by 60 and by 60 again, and each product is rounded. *)
Lemma addDays_rounding_counterexample :
  ~ (forall (this : Now) (n : float),
       addMinutes this n = addSeconds this (PrimFloat.mul 60 n)
       /\ addHours this n = addSeconds this (PrimFloat.mul 3600 n)
       /\ addDays this n = addSeconds this (PrimFloat.mul 86400 n)).
Proof.
  intros H.
  destruct (H {| now := 0 |} 0x1.3333333333333p-2%float) as (_ & _ & Hdays).
  vm_compute in Hdays. discriminate Hdays.
Qed.

(** A fraction of a millisecond is dropped by [setTime]: adding 0.0004 s to
    [new Now(0)] leaves the time at 0. *)
Example addSeconds_drops_fraction_of_ms :
  addSeconds {| now := 0 |} 0x1.a36e2eb1c432dp-12%float = (0%float, {| now := 0 |}).
Proof. vm_compute. reflexivity. Qed.

(** C10, amended.  [addMinutes(n)] is [addSeconds(60 * n)];
    [addHours(n)] is [addSeconds(60 * (60 * n))] and [addDays(n)] is
    [addSeconds(60 * (60 * (24 * n)))], every product a Number product,
    rounded, taken in that order.  [addSeconds(s)] sets the time to
    [TimeClip(time + s * 1000)] and returns the new time divided by 1000.
    For a whole [n] of magnitude at most 104249991374 no product is rounded:
    [addHours(n)] is [addSeconds(3600 * n)], [addDays(n)] is
    [addSeconds(86400 * n)], and on a time of [t] ms [addSeconds(n)] moves
    the time to [t + 1000 * n] ms, when that is a valid time, and returns it
    divided by 1000. *)
Theorem clock_additions_by_seconds (this : Now) (n : float) :
  addMinutes this n = addSeconds this (PrimFloat.mul 60 n)
  /\ addHours this n = addSeconds this (PrimFloat.mul 60 (PrimFloat.mul 60 n))
  /\ addDays this n
     = addSeconds this (PrimFloat.mul 60 (PrimFloat.mul 60 (PrimFloat.mul 24 n)))
  /\ addSeconds this n
     = (PrimFloat.div (TimeClip (PrimFloat.add (now this) (PrimFloat.mul n 1000))) 1000,
        {| now := TimeClip (PrimFloat.add (now this) (PrimFloat.mul n 1000)) |})
  /\ (forall z : Z,
        n = of_Z z -> (Z.abs z <= 104249991374)%Z ->
        addHours this n = addSeconds this (PrimFloat.mul 3600 n)
        /\ addDays this n = addSeconds this (PrimFloat.mul 86400 n)
        /\ (forall t : Z,
              now this = of_Z t ->
              (Z.abs t <= 8640000000000000)%Z ->
              (Z.abs (t + 1000 * z) <= 8640000000000000)%Z ->
              addSeconds this n
              = (PrimFloat.div (of_Z (t + 1000 * z)) 1000,
                 {| now := of_Z (t + 1000 * z) |}))).
Proof.
  assert (H53 : (2 ^ 53 = 9007199254740992)%Z) by reflexivity.
  unfold addDays, addHours, addMinutes.
  rewrite (float_mul_comm 60 n), (float_mul_comm 24 n).
  rewrite (float_mul_comm 60 (PrimFloat.mul n 60)).
  rewrite (float_mul_comm 60 (PrimFloat.mul n 24)).
  rewrite (float_mul_comm 60 (PrimFloat.mul (PrimFloat.mul n 24) 60)).
  do 4 (split; [reflexivity|]).
  intros z -> Hz.
  assert (H24 : PrimFloat.mul (of_Z z) 24 = of_Z (24 * z)).
  { rewrite float_mul_comm. apply (float_mul_of_Z 24 z); lia. }
  assert (H60 : forall k, (Z.abs k <= 1440 * 104249991374)%Z ->
                          PrimFloat.mul (of_Z k) 60 = of_Z (60 * k)).
  { intros k Hk. rewrite float_mul_comm. apply (float_mul_of_Z 60 k); lia. }
  split; [|split].
  - assert (H3600 : PrimFloat.mul 3600 (of_Z z) = of_Z (3600 * z))
      by (apply (float_mul_of_Z 3600 z); lia).
    rewrite !H60, H3600 by lia. do 2 f_equal. lia.
  - assert (H86400 : PrimFloat.mul 86400 (of_Z z) = of_Z (86400 * z))
      by (apply (float_mul_of_Z 86400 z); lia).
    rewrite H24, !H60, H86400 by lia. do 2 f_equal. lia.
  - intros t Ht Htr Hsum.
    assert (H1000 : PrimFloat.mul (of_Z z) 1000 = of_Z (1000 * z)).
    { rewrite float_mul_comm. apply (float_mul_of_Z 1000 z); lia. }
    unfold addSeconds, setTime, getTime. rewrite Ht, H1000.
    rewrite float_add_of_Z by lia.
    by rewrite TimeClip_of_Z.
Qed.

(** Two days after 1700000000123 ms. *)
Lemma clock_additions_by_seconds_witness :
  let this := {| now := 1700000000123 |} in
  addDays this 2 = addSeconds this (PrimFloat.mul 86400 2)
  /\ addSeconds this 2
     = (PrimFloat.div (of_Z (1700000000123 + 1000 * 2)) 1000,
        {| now := of_Z (1700000000123 + 1000 * 2) |}).
Proof.
  intros this.
  destruct (clock_additions_by_seconds this 2) as (_ & _ & _ & _ & Hwhole).
  destruct (Hwhole 2%Z eq_refl ltac:(simpl; lia)) as (_ & Hdays & Hsec).
  exact (conj Hdays
           (Hsec 1700000000123%Z eq_refl ltac:(simpl; lia) ltac:(simpl; lia))).
Defined.

(** * Further properties *)

(** ** Path keys *)

Lemma string_app_cons (c : ascii) (s t : string) :
  String c s +:+ t = String c (s +:+ t).
Proof. reflexivity. Qed.

Lemma string_app_nil_r (s : string) : s +:+ "" = s.
Proof.
  induction s as [|c s IH]; [done|]. by rewrite string_app_cons, IH.
Qed.

Lemma string_app_assoc (a b c : string) : (a +:+ b) +:+ c = a +:+ (b +:+ c).
Proof.
  induction a as [|x a IH]; [done|]. by rewrite !string_app_cons, IH.
Qed.

Lemma Split_from_cons (T S : string) (D : ascii) :
  exists first more, Split_from T S D = first :: more.
Proof.
  revert T. induction S as [|c U IH]; intros T; simpl; [by eauto|].
  destruct (Ascii.eqb c D); eauto.
Qed.

Lemma concat_cons (sep first second : string) (more : list string) :
  String.concat sep (first :: second :: more)
  = first +:+ sep +:+ String.concat sep (second :: more).
Proof. reflexivity. Qed.

Lemma join_Split_from (T S : string) (D : ascii) :
  String.concat (String D "") (Split_from T S D) = T +:+ S.
Proof.
  revert T. induction S as [|c U IH]; intros T; simpl.
  - by rewrite string_app_nil_r.
  - destruct (Ascii.eqb_spec c D) as [->|Hne].
    + destruct (Split_from_cons "" U D) as (first & more & Hsplit).
      specialize (IH ""). rewrite Hsplit in IH |- *.
      rewrite concat_cons, IH. reflexivity.
    + rewrite IH, string_app_assoc. reflexivity.
Qed.

Lemma Split_from_skip (T a S : string) (D : ascii) :
  has_char D a = false ->
  Split_from T (a +:+ S) D = Split_from (T +:+ a) S D.
Proof.
  revert T. induction a as [|c a IH]; intros T Ha; simpl in *.
  - by rewrite string_app_nil_r.
  - apply orb_false_elim in Ha as [Hc Ha]. rewrite Hc.
    rewrite IH by done. by rewrite string_app_assoc.
Qed.

(** X1. The array form of a path key, as [Split] computes it, resolves to
    the path itself: [get(Split(s))] and [get(s)] ask the client for the
    same key. *)
Theorem array_form_resolves_to_path this (s : string) :
  Memcached.resolveKey this (KArray (Split s "/"))
  = Memcached.resolveKey this (KString s)
  /\ Memcached.get this (KArray (Split s "/")) = Memcached.get this (KString s).
Proof.
  assert (H : Memcached.resolveKey this (KArray (Split s "/"))
              = Memcached.resolveKey this (KString s)).
  { unfold Memcached.resolveKey, Split. apply (join_Split_from "" s "/"). }
  split; [exact H|]. unfold Memcached.get. by rewrite H.
Qed.

(** X2. Segments that hold no "/" are recovered from the key their array
    resolves to. *)
Theorem segments_recovered_from_resolved_key this (segments : list string) :
  segments <> [] ->
  Forall (fun segment => has_char "/" segment = false) segments ->
  Split (Memcached.resolveKey this (KArray segments)) "/" = segments.
Proof.
  unfold Memcached.resolveKey, Split.
  induction segments as [|first more IH]; [done|].
  intros _ Hall. apply Forall_cons in Hall as [Hfirst Hmore].
  destruct more as [|second more].
  - simpl. rewrite <- (string_app_nil_r first) at 1.
    by rewrite Split_from_skip.
  - rewrite concat_cons, Split_from_skip by done. simpl. f_equal. by apply IH.
Qed.

Lemma segments_recovered_from_resolved_key_witness :
  ["users"; "42"; "name"] <> []
  /\ Forall (fun segment => has_char "/" segment = false) ["users"; "42"; "name"]
  /\ Split (Memcached.resolveKey cache (KArray ["users"; "42"; "name"])) "/"
     = ["users"; "42"; "name"].
Proof.
  assert (H1 : ["users"; "42"; "name"] <> ([] : list string)) by discriminate.
  assert (H2 : Forall (fun segment => has_char "/" segment = false)
                 ["users"; "42"; "name"])
    by (repeat constructor).
  exact (conj H1 (conj H2
    (segments_recovered_from_resolved_key cache ["users"; "42"; "name"] H1 H2))).
Defined.

(** ** Outcomes of the client *)

Lemma run_call_forwarded {W X} (client : Client W) (c : Call X) w :
  run client (call c) w = forwarded client c w.
Proof.
  rewrite run_call. unfold forwarded. by destruct (client X c w) as [[x|e] w'].
Qed.

(** X3. [get] makes one call and never rejects on its own: it resolves
    with [undefined] when the client has nothing under the key, with the
    entry's value when it has, and is rejected only as the client's call
    is, for the same reason. *)
Theorem get_settles_as_the_client {W} (client : Client W) this key w :
  let c := client_get (Memcached.resolveKey this key) in
  run client (Memcached.get this key) w
  = match client _ c w with
    | (Fulfilled None, w') => (Fulfilled JUndefined, w', [Sent c])
    | (Fulfilled (Some response), w') => (Fulfilled (value response), w', [Sent c])
    | (Rejected reason, w') => (Rejected reason, w', [Sent c])
    end.
Proof.
  intros c. rewrite run_get. fold c.
  by destruct (client _ c w) as [[[response|]|reason] w'].
Qed.

(** X4. Every method but [get], [gets], [remember], [rememberForever] and
    [pull] is one call to the client and settles as that call does, whether
    or not a lifetime or an amount is given: the value or the rejection is
    handed on unchanged, and nothing is retried.  A lifetime that is given
    (and is not [undefined]) is sent as it is, a missing one is
    [this.lifeTime[key] ?? 0], and a missing amount is 1. *)
Theorem single_call_methods_forward {W} (client : Client W) this key w :
  let rk := Memcached.resolveKey this key in
  let lifetime_of := Memcached.lifetime_or_default this key in
  (forall v l o, run client (Memcached.put this key v l o) w
                 = forwarded client (client_set rk v (with_lifetime (lifetime_of l) o)) w)
  /\ (forall v o, run client (Memcached.forever this key v o) w
                  = forwarded client (client_set rk v (with_lifetime (JNumber 0) o)) w)
  /\ (forall o, run client (Memcached.delete this key o) w
                = forwarded client (client_delete rk o) w)
  /\ (forall o, run client (Memcached.forget this key o) w
                = forwarded client (client_delete rk o) w)
  /\ (forall v l o, run client (Memcached.add this key v l o) w
                    = forwarded client (client_add rk v (with_lifetime (lifetime_of l) o)) w)
  /\ (forall a l o, run client (Memcached.increment this key a l o) w
                    = forwarded client
                        (client_incr rk (default 1%float a)
                           (with_lifetime (lifetime_of l) o)) w)
  /\ (forall a l o, run client (Memcached.decrement this key a l o) w
                    = forwarded client
                        (client_decr rk (default 1%float a)
                           (with_lifetime (lifetime_of l) o)) w)
  /\ (forall v l o, run client (Memcached.replace this key v l o) w
                    = forwarded client
                        (client_replace rk v (with_lifetime (lifetime_of l) o)) w)
  /\ (forall v l o, run client (Memcached.append this key v l o) w
                    = forwarded client
                        (client_append rk v (with_lifetime (lifetime_of l) o)) w)
  /\ (forall v l o, run client (Memcached.prepend this key v l o) w
                    = forwarded client
                        (client_prepend rk v (with_lifetime (lifetime_of l) o)) w)
  /\ (forall l o, run client (Memcached.incLifetime this key l o) w
                  = forwarded client (client_touch rk (lifetime_of l) o) w)
  /\ (forall command o, run client (Memcached.cmd this command o) w
                        = forwarded client (client_cmd command o) w)
  /\ (forall delay noReply,
        run client (Memcached.flush this delay noReply) w
        = forwarded client
            (client_cmd ("flush_all " +:+ Memcached.template_string delay)
               (Some {| noreply := from_option Is IsUndefined noReply |})) w)
  /\ (forall l, lifetime_of (Some l)
                = match l with JUndefined => lifetime_of None | given => given end)
  /\ lifetime_of None
     = nullish_coalesce (get_property (lifeTime this) rk) (JNumber 0).
Proof.
  intros rk lifetime_of.
  do 13 (split; [intros; apply run_call_forwarded|]).
  split; [|done]. by intros [].
Qed.

(** X5. When the client rejects the [get], [remember] is rejected for the
    same reason after that one call: the compute function is not run and
    nothing is stored. *)
Theorem remember_rejected_with_get {W} (client : Client W) this key l fnGet
    options w reason w' :
  client _ (client_get (Memcached.resolveKey this key)) w = (Rejected reason, w') ->
  run client (Memcached.remember this key l fnGet options) w
  = (Rejected reason, w', [Sent (client_get (Memcached.resolveKey this key))]).
Proof. intros Hget. rewrite run_remember. cbv zeta. by rewrite Hget. Qed.

Lemma remember_rejected_with_get_witness :
  unreachable _ (client_get (Memcached.resolveKey cache (KString "visits"))) tt
    = (Rejected (JString "connect ECONNREFUSED"), tt)
  /\ run unreachable
       (Memcached.remember cache (KString "visits") None
          (Memcached.get cache (KString "total")) None) tt
     = (Rejected (JString "connect ECONNREFUSED"), tt,
        [Sent (client_get (Memcached.resolveKey cache (KString "visits")))]).
Proof.
  exact (conj eq_refl
    (remember_rejected_with_get unreachable cache (KString "visits") None
       (Memcached.get cache (KString "total")) None tt
       (JString "connect ECONNREFUSED") tt eq_refl)).
Defined.

(** X6. When the compute function rejects on a miss, [remember] is rejected
    for the same reason and sends no store. *)
Theorem remember_rejected_with_fnGet {W} (client : Client W) this key l fnGet
    options w res w1 reason w2 tr :
  client _ (client_get (Memcached.resolveKey this key)) w = (Fulfilled res, w1) ->
  truthy (from_option value JUndefined res) = false ->
  run client fnGet w1 = (Rejected reason, w2, tr) ->
  run client (Memcached.remember this key l fnGet options) w
  = (Rejected reason, w2,
     Sent (client_get (Memcached.resolveKey this key)) :: tr).
Proof.
  intros Hget Hfalsy Hf. rewrite run_remember. cbv zeta.
  rewrite Hget, Hfalsy, run_bind, Hf. reflexivity.
Qed.

Lemma remember_rejected_with_fnGet_witness :
  let w := server_with [] in
  memcache _ (client_get (Memcached.resolveKey cache (KString "visits"))) w
    = (Fulfilled None, w)
  /\ truthy (from_option value JUndefined None) = false
  /\ run memcache (Reject (JString "database down") : Async JsValue) w
     = (Rejected (JString "database down"), w, [])
  /\ run memcache
       (Memcached.remember cache (KString "visits") None
          (Reject (JString "database down")) None) w
     = (Rejected (JString "database down"), w,
        Sent (client_get (Memcached.resolveKey cache (KString "visits"))) :: []).
Proof.
  intros w.
  exact (conj eq_refl (conj eq_refl (conj eq_refl
    (remember_rejected_with_fnGet memcache cache (KString "visits") None
       (Reject (JString "database down")) None w None w
       (JString "database down") w [] eq_refl eq_refl eq_refl)))).
Defined.

(** X7. When the client rejects the store, [remember] is rejected for the
    same reason: the value just computed is not returned. *)
Theorem remember_rejected_with_store {W} (client : Client W) this key l fnGet
    options w res w1 v w2 tr reason w3 :
  let rk := Memcached.resolveKey this key in
  let set := client_set rk v
               (with_lifetime (Memcached.lifetime_or_default this key l)
                  (Some (with_noreply options))) in
  client _ (client_get rk) w = (Fulfilled res, w1) ->
  truthy (from_option value JUndefined res) = false ->
  run client fnGet w1 = (Fulfilled v, w2, tr) ->
  client _ set w2 = (Rejected reason, w3) ->
  run client (Memcached.remember this key l fnGet options) w
  = (Rejected reason, w3, Sent (client_get rk) :: tr ++ [Sent set]).
Proof.
  intros rk set Hget Hfalsy Hf Hset. rewrite run_remember. cbv zeta. fold rk.
  rewrite Hget, Hfalsy, run_bind, Hf. cbv beta. rewrite run_bind.
  unfold Memcached.put. rewrite run_call, lifetime_or_default_again.
  fold rk. fold set. by rewrite Hset.
Qed.

Lemma remember_rejected_with_store_witness :
  let w := server_with [] in
  let rk := Memcached.resolveKey cache (KString "visits") in
  let set := client_set rk (JNumber 7)
               (with_lifetime (Memcached.lifetime_or_default cache (KString "visits") None)
                  (Some (with_noreply None))) in
  reads_only _ (client_get rk) w = (Fulfilled None, w)
  /\ truthy (from_option value JUndefined None) = false
  /\ run reads_only (Resolve (JNumber 7)) w = (Fulfilled (JNumber 7), w, [])
  /\ reads_only _ set w = (Rejected (JString "ETIMEDOUT"), w)
  /\ run reads_only
       (Memcached.remember cache (KString "visits") None (Resolve (JNumber 7)) None) w
     = (Rejected (JString "ETIMEDOUT"), w, Sent (client_get rk) :: [] ++ [Sent set]).
Proof.
  intros w rk set.
  exact (conj eq_refl (conj eq_refl (conj eq_refl (conj eq_refl
    (remember_rejected_with_store reads_only cache (KString "visits") None
       (Resolve (JNumber 7)) None w None w (JNumber 7) w []
       (JString "ETIMEDOUT") w eq_refl eq_refl eq_refl eq_refl))))).
Defined.

(** X8. When the client rejects the [get], [pull] is rejected for the same
    reason and sends no delete. *)
Theorem pull_rejected_with_get {W} (client : Client W) this key def w reason w' :
  client _ (client_get (Memcached.resolveKey this key)) w = (Rejected reason, w') ->
  run client (Memcached.pull this key def) w
  = (Rejected reason, w', [Sent (client_get (Memcached.resolveKey this key))]).
Proof. intros Hget. rewrite run_pull. cbv zeta. by rewrite Hget. Qed.

Lemma pull_rejected_with_get_witness :
  unreachable _ (client_get (Memcached.resolveKey cache (KString "visits"))) tt
    = (Rejected (JString "connect ECONNREFUSED"), tt)
  /\ run unreachable (Memcached.pull cache (KString "visits") JUndefined) tt
     = (Rejected (JString "connect ECONNREFUSED"), tt,
        [Sent (client_get (Memcached.resolveKey cache (KString "visits")))]).
Proof.
  exact (conj eq_refl
    (pull_rejected_with_get unreachable cache (KString "visits") JUndefined tt
       (JString "connect ECONNREFUSED") tt eq_refl)).
Defined.

(** X9. When the value retrieved is truthy and the client rejects the
    delete, [pull] is rejected for that reason: the value retrieved is not
    returned. *)
Theorem pull_rejected_with_delete {W} (client : Client W) this key def w res w1
    reason w2 :
  let rk := Memcached.resolveKey this key in
  client _ (client_get rk) w = (Fulfilled (Some res), w1) ->
  truthy (value res) = true ->
  client _ (client_delete rk None) w1 = (Rejected reason, w2) ->
  run client (Memcached.pull this key def) w
  = (Rejected reason, w2, [Sent (client_get rk); Sent (client_delete rk None)]).
Proof.
  intros rk Hget Ht Hdel. rewrite run_pull. cbv zeta. fold rk.
  rewrite Hget. simpl. by rewrite Ht, Hdel.
Qed.

Lemma pull_rejected_with_delete_witness :
  let w := server_with [("visits", JNumber 3)] in
  let rk := Memcached.resolveKey cache (KString "visits") in
  reads_only _ (client_get rk) w = (Fulfilled (Some (retrieved (JNumber 3))), w)
  /\ truthy (value (retrieved (JNumber 3))) = true
  /\ reads_only _ (client_delete rk None) w = (Rejected (JString "ETIMEDOUT"), w)
  /\ run reads_only (Memcached.pull cache (KString "visits") JUndefined) w
     = (Rejected (JString "ETIMEDOUT"), w,
        [Sent (client_get rk); Sent (client_delete rk None)]).
Proof.
  intros w rk.
  exact (conj eq_refl (conj eq_refl (conj eq_refl
    (pull_rejected_with_delete reads_only cache (KString "visits") JUndefined
       w (retrieved (JNumber 3)) w (JString "ETIMEDOUT") w
       eq_refl eq_refl eq_refl)))).
Defined.

(** X10. Whatever the client answers, [pull] sends the [get] of the key and
    after it at most one call, the delete of the same key without options;
    it never stores. *)
Theorem pull_sends_get_then_at_most_delete {W} (client : Client W) this key def w :
  let rk := Memcached.resolveKey this key in
  let sent := (run client (Memcached.pull this key def) w).2 in
  sent = [Sent (client_get rk)]
  \/ sent = [Sent (client_get rk); Sent (client_delete rk None)].
Proof.
  intros rk sent. unfold sent. rewrite run_pull. cbv zeta. fold rk.
  destruct (client _ (client_get rk) w) as [[res|reason] w1]; [|by left].
  destruct (truthy _); [|by left].
  destruct (client _ (client_delete rk None) w1) as [[x|reason] w2]; by right.
Qed.

(** Instances of the four lemmas on hits and misses of [remember] and
    [pull], against the in-memory server. *)
Lemma remember_truthy_hit_witness :
  let w := server_with [("visits", JNumber 3)] in
  memcache _ (client_get (Memcached.resolveKey cache (KString "visits"))) w
    = (Fulfilled (Some (retrieved (JNumber 3))), w)
  /\ truthy (value (retrieved (JNumber 3))) = true
  /\ run memcache
       (Memcached.remember cache (KString "visits") None
          (Reject (JString "database down")) None) w
     = (Fulfilled (value (retrieved (JNumber 3))), w,
        [Sent (client_get (Memcached.resolveKey cache (KString "visits")))]).
Proof.
  intros w.
  exact (conj eq_refl (conj eq_refl
    (remember_truthy_hit memcache cache (KString "visits") None
       (Reject (JString "database down")) None w (retrieved (JNumber 3)) w
       eq_refl eq_refl))).
Defined.

Lemma remember_absent_witness :
  let w := server_with [("total", JNumber 7)] in
  let w' := server_with [("total", JNumber 7); ("visits", JNumber 7)] in
  let rk := Memcached.resolveKey cache (KString "visits") in
  let fnGet := Memcached.get cache (KString "total") in
  let set := client_set rk (JNumber 7)
               (with_lifetime (JNumber 30) (Some (with_noreply None))) in
  memcache _ (client_get rk) w = (Fulfilled None, w)
  /\ run memcache fnGet w = (Fulfilled (JNumber 7), w, [Sent (client_get "total")])
  /\ memcache _ set w = (Fulfilled JUndefined, w')
  /\ run memcache
       (Memcached.remember cache (KString "visits") (Some (JNumber 30)) fnGet None) w
     = (Fulfilled (JNumber 7), w',
        Sent (client_get rk) :: [Sent (client_get "total")] ++ [Sent set]).
Proof.
  intros w w' rk fnGet set.
  assert (H1 : memcache _ (client_get rk) w = (Fulfilled None, w))
    by reflexivity.
  assert (H2 : run memcache fnGet w
               = (Fulfilled (JNumber 7), w, [Sent (client_get "total")]))
    by reflexivity.
  assert (H3 : memcache _ set w = (Fulfilled JUndefined, w'))
    by (vm_compute; reflexivity).
  exact (conj H1 (conj H2 (conj H3
    (remember_absent memcache cache (KString "visits") 30%float fnGet None
       w w (JNumber 7) w [Sent (client_get "total")] JUndefined w' H1 H2 H3)))).
Defined.

Lemma pull_truthy_hit_witness :
  let w := server_with [("visits", JNumber 3)] in
  let rk := Memcached.resolveKey cache (KString "visits") in
  memcache _ (client_get rk) w = (Fulfilled (Some (retrieved (JNumber 3))), w)
  /\ truthy (value (retrieved (JNumber 3))) = true
  /\ memcache _ (client_delete rk None) w
     = (Fulfilled (JArray [JString "DELETED"]), server_with [])
  /\ run memcache (Memcached.pull cache (KString "visits") (JString "none")) w
     = (Fulfilled (value (retrieved (JNumber 3))), server_with [],
        [Sent (client_get rk); Sent (client_delete rk None)]).
Proof.
  intros w rk.
  assert (H3 : memcache _ (client_delete rk None) w
               = (Fulfilled (JArray [JString "DELETED"]), server_with []))
    by (vm_compute; reflexivity).
  exact (conj eq_refl (conj eq_refl (conj H3
    (pull_truthy_hit memcache cache (KString "visits") (JString "none") w
       (retrieved (JNumber 3)) w (JArray [JString "DELETED"]) (server_with [])
       eq_refl eq_refl H3)))).
Defined.

Lemma pull_absent_witness :
  let w := server_with [] in
  let rk := Memcached.resolveKey cache (KString "visits") in
  memcache _ (client_get rk) w = (Fulfilled None, w)
  /\ run memcache (Memcached.pull cache (KString "visits") (JString "none")) w
     = (Fulfilled (JString "none"), w, [Sent (client_get rk)]).
Proof.
  intros w rk.
  exact (conj eq_refl
    (pull_absent memcache cache (KString "visits") (JString "none") w w eq_refl)).
Defined.


(** X16. When the client rejects [gets], so is the facade's [gets], for the
    same reason. *)
Theorem gets_rejected_with_client {W} (client : Client W) this keys w reason w' :
  client _ (client_gets keys) w = (Rejected reason, w') ->
  run client (Memcached.gets this keys) w
  = (Rejected reason, w', [Sent (client_gets keys)]).
Proof.
  intros Hgets. unfold Memcached.gets. by rewrite run_bind, run_call, Hgets.
Qed.

Lemma gets_rejected_with_client_witness :
  unreachable _ (client_gets ["a"; "b"]) tt
    = (Rejected (JString "connect ECONNREFUSED"), tt)
  /\ run unreachable (Memcached.gets cache ["a"; "b"]) tt
     = (Rejected (JString "connect ECONNREFUSED"), tt,
        [Sent (client_gets ["a"; "b"])]).
Proof.
  exact (conj eq_refl
    (gets_rejected_with_client unreachable cache ["a"; "b"] tt
       (JString "connect ECONNREFUSED") tt eq_refl)).
Defined.

(** ** Time values *)

Section TimeValues.
Local Open Scope Z_scope.

(** A whole time and a whole amount, in range: the arithmetic is exact. *)
Lemma addSeconds_whole (t z : Z) :
  Z.abs t <= 8640000000000000 ->
  Z.abs z <= 9007199254740 ->
  Z.abs (t + 1000 * z) <= 8640000000000000 ->
  addSeconds {| now := of_Z t |} (of_Z z)
  = (PrimFloat.div (of_Z (t + 1000 * z)) 1000, {| now := of_Z (t + 1000 * z) |}).
Proof.
  intros Ht Hz Hsum.
  assert (H53 : 2 ^ 53 = 9007199254740992) by reflexivity.
  assert (H1000 : PrimFloat.mul (of_Z z) 1000 = of_Z (1000 * z)).
  { rewrite float_mul_comm. apply (float_mul_of_Z 1000 z); lia. }
  unfold addSeconds, setTime, getTime. cbn [now]. rewrite H1000.
  rewrite float_add_of_Z by lia. by rewrite TimeClip_of_Z.
Qed.

Lemma SFeqb_refl (p : spec_float) : p <> S754_nan -> SFeqb p p = true.
Proof.
  intros Hp. destruct p as [s|s| |s m e]; [done| |done|].
  - by destruct s.
  - unfold SFeqb, SFcompare. rewrite Z.compare_refl, Pos.compare_cont_refl.
    by destruct s.
Qed.

(** A Number that is not finite is [NaN], [Infinity] or [-Infinity]. *)
Lemma not_finite (n : float) :
  PrimFloat.is_finite n = false ->
  n = nan \/ n = infinity \/ n = neg_infinity.
Proof.
  unfold is_finite, is_nan, is_infinity.
  rewrite !FloatAxioms.eqb_spec, abs_spec.
  change (Prim2SF infinity) with (S754_infinity false).
  intros H. apply negb_false_iff, orb_true_iff in H as [H|H].
  - left. apply Prim2SF_inj. change (Prim2SF nan) with S754_nan.
    destruct (Prim2SF n) as [s|s| |s m e] eqn:Hn; [| |done|];
      by rewrite SFeqb_refl in H.
  - right. destruct (Prim2SF n) as [s|s| |s m e] eqn:Hn; try done.
    destruct s; [right|left]; by apply Prim2SF_inj.
Qed.

Lemma add_not_finite (t s : float) :
  s = nan \/ s = infinity \/ s = neg_infinity ->
  let r := PrimFloat.add t s in r = nan \/ r = infinity \/ r = neg_infinity.
Proof.
  intros Hs r.
  assert (Hr : Prim2SF r = S754_nan \/ Prim2SF r = S754_infinity false
               \/ Prim2SF r = S754_infinity true).
  { unfold r. rewrite add_spec. unfold SF64add.
    destruct Hs as [->|[->| ->]].
    - change (Prim2SF nan) with S754_nan.
      left. by destruct (Prim2SF t).
    - change (Prim2SF infinity) with (S754_infinity false).
      destruct (Prim2SF t) as [s|s| |s m e]; cbn [SFadd]; try destruct s; auto.
    - change (Prim2SF neg_infinity) with (S754_infinity true).
      destruct (Prim2SF t) as [s|s| |s m e]; cbn [SFadd]; try destruct s; auto. }
  destruct Hr as [Hr|[Hr|Hr]]; [left|right; left|right; right];
    by apply Prim2SF_inj.
Qed.

Lemma TimeClip_not_finite (x : float) :
  x = nan \/ x = infinity \/ x = neg_infinity -> TimeClip x = nan.
Proof. by intros [->|[->| ->]]. Qed.

Lemma addSeconds_not_finite (this : Now) (s : float) :
  s = nan \/ s = infinity \/ s = neg_infinity ->
  addSeconds this s = (nan, {| now := nan |}).
Proof.
  intros Hs. unfold addSeconds, setTime, getTime. cbn [now].
  assert (Hm : let m := PrimFloat.mul s 1000 in
               m = nan \/ m = infinity \/ m = neg_infinity).
  { destruct Hs as [->|[->| ->]]; cbv zeta; auto. }
  by rewrite (TimeClip_not_finite _ (add_not_finite (now this) _ Hm)).
Qed.

End TimeValues.

Section TimeValueProperties.
Local Open Scope Z_scope.

(** The integer part of a finite Number that is not above 8.64e15 in
    magnitude is not above it either. *)
Lemma truncate_bound (x : float) :
  PrimFloat.ltb 8.64e15 (PrimFloat.abs x) = false ->
  Z.abs (truncate x) <= 8640000000000000.
Proof.
  rewrite FloatAxioms.ltb_spec, abs_spec.
  change (Prim2SF 8.64e15) with (S754_finite false 8640000000000000 0).
  unfold truncate. pose proof (Prim2SF_valid x) as Hvalid.
  destruct (Prim2SF x) as [s|s| |s m e]; [done|done|done|].
  cbn [SFabs]. unfold SFltb, SFcompare. intros Hlt.
  assert (Hm : Zpos m < 2 ^ 53).
  { cbn [valid_binary] in Hvalid. unfold bounded, canonical_mantissa in Hvalid.
    apply andb_true_iff in Hvalid as [Hcanon _]. apply Z.eqb_eq in Hcanon.
    unfold fexp, emin, prec, emax in Hcanon.
    pose proof (digits2_pos_bounds m) as [_ Hhi].
    assert (Hd : Zpos (digits2_pos m) <= 53) by lia.
    eapply Z.lt_le_trans; [exact Hhi|].
    apply Z.pow_le_mono_r; lia. }
  assert (H53 : 2 ^ 53 = 9007199254740992) by reflexivity.
  assert (Ha : 0 <= (if 0 <=? e then Z.shiftl (Zpos m) e
                     else Z.shiftr (Zpos m) (- e)) <= 8640000000000000).
  { destruct (Z.compare_spec 0 e) as [He|He|He].
    - subst e. cbn [Z.leb Z.compare] in *. rewrite Z.shiftl_0_r.
      pose proof (Pos.compare_spec 8640000000000000 m) as Hspec.
      unfold Pos.compare in Hspec.
      destruct Hspec as [Hcmp|Hcmp|Hcmp].
      + subst m. clear. lia.
      + discriminate Hlt.
      + assert (Hz : Zpos m < 8640000000000000) by exact Hcmp.
        clear -Hz. lia.
    - discriminate Hlt.
    - rewrite (proj2 (Z.leb_gt 0 e)) by lia.
      rewrite Z.shiftr_div_pow2 by lia. split.
      + apply Z.div_pos; [lia|]. apply Z.pow_pos_nonneg; lia.
      + assert (Zpos m / 2 ^ (- e) <= Zpos m / 2 ^ 1).
        { apply Z.div_le_compat_l; [lia|]. split; [done|].
          apply Z.pow_le_mono_r; lia. }
        change (2 ^ 1) with 2 in *.
        assert (Zpos m / 2 < 4503599627370496).
        { apply Z.div_lt_upper_bound; lia. }
        lia. }
  destruct s; lia.
Qed.

(** [TimeClip] always yields a time value. *)
Lemma TimeClip_time_value (x : float) : time_value (TimeClip x).
Proof.
  unfold TimeClip.
  destruct (is_nan x || is_infinity x); [by left|].
  destruct (PrimFloat.ltb 8.64e15 (PrimFloat.abs x)) eqn:Hlt; [by left|].
  right. exists (truncate x). split; [by apply truncate_bound|done].
Qed.

(** A whole number beyond the range of time values is clipped to [NaN]. *)
Lemma TimeClip_out_of_range (k : Z) :
  8640000000000000 < Z.abs k < 2 ^ 53 -> TimeClip (of_Z k) = nan.
Proof.
  intros Hk. assert (H53 : 2 ^ 53 = 9007199254740992) by reflexivity.
  assert (H63 : 2 ^ 53 < 2 ^ 63) by done.
  unfold TimeClip, is_nan, is_infinity.
  rewrite !FloatAxioms.eqb_spec, FloatAxioms.ltb_spec, !abs_spec.
  rewrite Prim2SF_of_Z by lia.
  change (Prim2SF infinity) with (S754_infinity false).
  change (Prim2SF 8.64e15) with (S754_finite false 8640000000000000 0).
  destruct (SF_of_Z_finite k) as (c & Hc & _ & Hd & Hb & ->); [lia|lia|].
  set (d := Zdigits2 k) in *.
  assert (Hd53 : d = 53).
  { assert (52 < d); [|lia].
    apply (Z.pow_lt_mono_r_iff 2); [lia|lia|].
    assert (2 ^ 52 = 4503599627370496) by reflexivity. lia. }
  rewrite Hd53 in *. rewrite Z.pow_0_r, Z.mul_1_r in Hc.
  rewrite SFeqb_refl by done. cbn [negb orb SFabs SFeqb SFcompare].
  unfold SFltb, SFcompare. cbn [Z.sub Z.compare Z.pos_sub Pos.pred_double].
  change (53 - 53) with 0. cbn [Z.compare].
  assert (Hcmp : Pos.compare_cont Eq 8640000000000000 c = Lt).
  { apply (proj2 (Pos.compare_lt_iff 8640000000000000 c)).
    assert (Hz : 8640000000000000 < Zpos c) by lia. exact Hz. }
  by rewrite Hcmp.
Qed.

End TimeValueProperties.

Section ClockProperties.
Local Open Scope Z_scope.

Lemma float_add_nan_l (x : float) : PrimFloat.add nan x = nan.
Proof.
  apply Prim2SF_inj. rewrite add_spec.
  change (Prim2SF nan) with S754_nan. reflexivity.
Qed.

Lemma float_add_neg_zero (t : Z) :
  Z.abs t < 2 ^ 53 -> PrimFloat.add (of_Z t) (-0)%float = of_Z t.
Proof.
  intros Ht. assert (H63 : 2 ^ 53 < 2 ^ 63) by done.
  apply Prim2SF_inj. rewrite add_spec, Prim2SF_of_Z by lia.
  change (Prim2SF (-0)) with (S754_zero true).
  destruct (Z.eq_dec t 0) as [->|Ht0]; [done|].
  by destruct (SF_of_Z_finite t) as (c & _ & _ & _ & _ & ->).
Qed.

Lemma float_opp_involutive (x : float) : PrimFloat.opp (PrimFloat.opp x) = x.
Proof.
  apply Prim2SF_inj. rewrite !opp_spec.
  destruct (Prim2SF x) as [s|s| |s m e]; cbn [SFopp]; by rewrite ?negb_involutive.
Qed.

Lemma float_opp_of_Z (a : Z) : a <> 0 -> PrimFloat.opp (of_Z a) = of_Z (- a).
Proof.
  intros Ha. unfold of_Z. rewrite Z.abs_opp.
  destruct (Z.ltb_spec a 0), (Z.ltb_spec (- a) 0); try lia.
  - apply float_opp_involutive.
  - reflexivity.
Qed.

(** X17. The time an instance holds is always a time value, [NaN] or a
    whole number of milliseconds of magnitude at most 8.64e15: so the
    constructor and the factory make it, and so every method leaves it,
    whatever it is given.  What a method returns is that time divided by
    1000. *)
Theorem clock_holds_time_values (this : Now) (n clock : float) (time : option float) :
  time_value (now (new_Now clock time))
  /\ time_value (now (now_ts.now clock time))
  /\ (forall method, In method [addSeconds; addMinutes; addHours; addDays] ->
        time_value (now (method this n).2)
        /\ (method this n).1 = PrimFloat.div (now (method this n).2) 1000).
Proof.
  split; [apply TimeClip_time_value|]. split; [apply TimeClip_time_value|].
  intros method Hin. simpl in Hin.
  destruct Hin as [<-|[<-|[<-|[<-|[]]]]];
    (split; [apply TimeClip_time_value|reflexivity]).
Qed.

(** X18. An invalid instance stays invalid: when the time is [NaN], every
    method leaves it [NaN] and returns [NaN], whatever the amount. *)
Theorem invalid_time_stays_invalid (this : Now) (n : float) :
  now this = nan ->
  addSeconds this n = (nan, {| now := nan |})
  /\ addMinutes this n = (nan, {| now := nan |})
  /\ addHours this n = (nan, {| now := nan |})
  /\ addDays this n = (nan, {| now := nan |}).
Proof.
  intros Hnan.
  assert (H : forall s, addSeconds this s = (nan, {| now := nan |})).
  { intros s. unfold addSeconds, setTime, getTime.
    by rewrite Hnan, float_add_nan_l. }
  unfold addDays, addHours, addMinutes. by rewrite !H.
Qed.

Lemma invalid_time_stays_invalid_witness :
  now {| now := nan |} = nan
  /\ addSeconds {| now := nan |} 5 = (nan, {| now := nan |})
  /\ addMinutes {| now := nan |} 5 = (nan, {| now := nan |})
  /\ addHours {| now := nan |} 5 = (nan, {| now := nan |})
  /\ addDays {| now := nan |} 5 = (nan, {| now := nan |}).
Proof.
  exact (conj eq_refl (invalid_time_stays_invalid {| now := nan |} 5 eq_refl)).
Defined.

(** X19. An amount that is not finite ([NaN], [Infinity], [-Infinity])
    makes any instance invalid: the time becomes [NaN] and [NaN] is
    returned. *)
Theorem amount_not_finite_invalidates (this : Now) (n : float) :
  PrimFloat.is_finite n = false ->
  addSeconds this n = (nan, {| now := nan |})
  /\ addMinutes this n = (nan, {| now := nan |})
  /\ addHours this n = (nan, {| now := nan |})
  /\ addDays this n = (nan, {| now := nan |}).
Proof.
  intros Hn. apply not_finite in Hn.
  unfold addDays, addHours, addMinutes.
  repeat split; apply addSeconds_not_finite;
    destruct Hn as [->|[->| ->]]; auto.
Qed.

Lemma amount_not_finite_invalidates_witness :
  PrimFloat.is_finite infinity = false
  /\ addSeconds {| now := 1700000000123 |} infinity = (nan, {| now := nan |})
  /\ addMinutes {| now := 1700000000123 |} infinity = (nan, {| now := nan |})
  /\ addHours {| now := 1700000000123 |} infinity = (nan, {| now := nan |})
  /\ addDays {| now := 1700000000123 |} infinity = (nan, {| now := nan |}).
Proof.
  exact (conj eq_refl
    (amount_not_finite_invalidates {| now := 1700000000123 |} infinity eq_refl)).
Defined.

End ClockProperties.

Section WholeAmounts.
Local Open Scope Z_scope.

(** X20. Whole amounts add up: on a whole time, [addSeconds(a)] followed by
    [addSeconds(b)] returns and leaves what one [addSeconds(a + b)] does,
    as long as the amounts and the times passed through are in range. *)
Theorem addSeconds_composes (t a b : Z) :
  Z.abs t <= 8640000000000000 ->
  Z.abs a <= 9007199254740 ->
  Z.abs b <= 9007199254740 ->
  Z.abs (a + b) <= 9007199254740 ->
  Z.abs (t + 1000 * a) <= 8640000000000000 ->
  Z.abs (t + 1000 * a + 1000 * b) <= 8640000000000000 ->
  let this := {| now := of_Z t |} in
  addSeconds (addSeconds this (of_Z a)).2 (of_Z b)
  = addSeconds this (PrimFloat.add (of_Z a) (of_Z b)).
Proof.
  intros Ht Ha Hb Hab Hta Htab this. unfold this.
  assert (H53 : 2 ^ 53 = 9007199254740992) by reflexivity.
  rewrite float_add_of_Z by lia.
  rewrite (addSeconds_whole t a) by lia. cbn [snd].
  rewrite (addSeconds_whole (t + 1000 * a) b) by lia.
  rewrite (addSeconds_whole t (a + b)) by lia.
  by replace (t + 1000 * (a + b)) with (t + 1000 * a + 1000 * b) by lia.
Qed.

Lemma addSeconds_composes_witness :
  let this := {| now := of_Z 1700000000123 |} in
  addSeconds (addSeconds this (of_Z 90)).2 (of_Z (-30))
  = addSeconds this (PrimFloat.add (of_Z 90) (of_Z (-30))).
Proof.
  apply (addSeconds_composes 1700000000123 90 (-30)); simpl; lia.
Defined.

(** X21. Adding a whole amount and then its negation brings a whole time
    back: the instance is as before and its time, in seconds, is
    returned. *)
Theorem addSeconds_then_back (t a : Z) :
  Z.abs t <= 8640000000000000 ->
  Z.abs a <= 9007199254740 ->
  Z.abs (t + 1000 * a) <= 8640000000000000 ->
  let this := {| now := of_Z t |} in
  addSeconds (addSeconds this (of_Z a)).2 (PrimFloat.opp (of_Z a))
  = (PrimFloat.div (of_Z t) 1000, this).
Proof.
  intros Ht Ha Hta this. unfold this.
  assert (H53 : 2 ^ 53 = 9007199254740992) by reflexivity.
  rewrite (addSeconds_whole t a) by lia. cbn [snd].
  destruct (Z.eq_dec a 0) as [->|Ha0].
  - replace (t + 1000 * 0) with t by lia.
    unfold addSeconds, setTime, getTime. cbn [now].
    change (PrimFloat.mul (PrimFloat.opp (of_Z 0)) 1000) with (-0)%float.
    rewrite float_add_neg_zero by lia. by rewrite TimeClip_of_Z.
  - rewrite float_opp_of_Z by done.
    rewrite (addSeconds_whole (t + 1000 * a) (- a)) by lia.
    by replace (t + 1000 * a + 1000 * - a) with t by lia.
Qed.

Lemma addSeconds_then_back_witness :
  let this := {| now := of_Z 1700000000123 |} in
  addSeconds (addSeconds this (of_Z 90)).2 (PrimFloat.opp (of_Z 90))
  = (PrimFloat.div (of_Z 1700000000123) 1000, this).
Proof.
  apply (addSeconds_then_back 1700000000123 90); simpl; lia.
Defined.

(** X22. On a whole time [t], whole minutes, hours and days advance the
    time by exactly 60000, 3600000 and 86400000 ms each, and the new time
    in seconds is returned. *)
Theorem whole_amounts_advance (t z : Z) :
  Z.abs t <= 8640000000000000 ->
  Z.abs z <= 104249991 ->
  Z.abs (t + 86400000 * z) <= 8640000000000000 ->
  let this := {| now := of_Z t |} in
  addMinutes this (of_Z z)
  = (PrimFloat.div (of_Z (t + 60000 * z)) 1000, {| now := of_Z (t + 60000 * z) |})
  /\ addHours this (of_Z z)
     = (PrimFloat.div (of_Z (t + 3600000 * z)) 1000,
        {| now := of_Z (t + 3600000 * z) |})
  /\ addDays this (of_Z z)
     = (PrimFloat.div (of_Z (t + 86400000 * z)) 1000,
        {| now := of_Z (t + 86400000 * z) |}).
Proof.
  intros Ht Hz Hsum this. unfold this.
  assert (H53 : 2 ^ 53 = 9007199254740992) by reflexivity.
  assert (H24 : PrimFloat.mul (of_Z z) 24 = of_Z (24 * z)).
  { rewrite float_mul_comm. apply (float_mul_of_Z 24 z); lia. }
  assert (H60 : forall k, Z.abs k <= 1440 * 104249991 ->
                          PrimFloat.mul (of_Z k) 60 = of_Z (60 * k)).
  { intros k Hk. rewrite float_mul_comm. apply (float_mul_of_Z 60 k); lia. }
  unfold addDays, addHours, addMinutes.
  rewrite H24, !H60 by lia.
  rewrite !addSeconds_whole by lia.
  repeat split; do 3 f_equal; lia.
Qed.

Lemma whole_amounts_advance_witness :
  let this := {| now := of_Z 1700000000123 |} in
  addMinutes this (of_Z 2)
  = (PrimFloat.div (of_Z (1700000000123 + 60000 * 2)) 1000,
     {| now := of_Z (1700000000123 + 60000 * 2) |})
  /\ addHours this (of_Z 2)
     = (PrimFloat.div (of_Z (1700000000123 + 3600000 * 2)) 1000,
        {| now := of_Z (1700000000123 + 3600000 * 2) |})
  /\ addDays this (of_Z 2)
     = (PrimFloat.div (of_Z (1700000000123 + 86400000 * 2)) 1000,
        {| now := of_Z (1700000000123 + 86400000 * 2) |}).
Proof.
  apply (whole_amounts_advance 1700000000123 2); simpl; lia.
Defined.

(** X23. The constructor and the factory keep a whole time of magnitude at
    most 8.64e15 ms as it is, and make an invalid instance of a whole time
    beyond that. *)
Theorem constructor_clips_whole_time (clock : float) (t : Z) :
  Z.abs t < 2 ^ 53 ->
  new_Now clock (Some (of_Z t))
  = {| now := if Z.abs t <=? 8640000000000000 then of_Z t else nan |}
  /\ now_ts.now clock (Some (of_Z t)) = new_Now clock (Some (of_Z t)).
Proof.
  intros Ht. split; [|reflexivity]. unfold new_Now. cbn [default]. f_equal.
  destruct (Z.leb_spec (Z.abs t) 8640000000000000).
  - by apply TimeClip_of_Z.
  - apply TimeClip_out_of_range. lia.
Qed.

Lemma constructor_clips_whole_time_witness :
  new_Now 0 (Some (of_Z 8640000000000001))
  = {| now := if Z.abs 8640000000000001 <=? 8640000000000000
              then of_Z 8640000000000001 else nan |}
  /\ now_ts.now 0 (Some (of_Z 8640000000000001))
     = new_Now 0 (Some (of_Z 8640000000000001)).
Proof.
  apply (constructor_clips_whole_time 0 8640000000000001). reflexivity.
Defined.

(** X24. A whole amount that takes a whole time beyond 8.64e15 ms in
    magnitude makes the instance invalid. *)
Theorem addSeconds_out_of_range_invalidates (t z : Z) :
  Z.abs t <= 8640000000000000 ->
  Z.abs z <= 9007199254740 ->
  8640000000000000 < Z.abs (t + 1000 * z) < 2 ^ 53 ->
  addSeconds {| now := of_Z t |} (of_Z z) = (nan, {| now := nan |}).
Proof.
  intros Ht Hz Hsum.
  assert (H53 : 2 ^ 53 = 9007199254740992) by reflexivity.
  assert (H1000 : PrimFloat.mul (of_Z z) 1000 = of_Z (1000 * z)).
  { rewrite float_mul_comm. apply (float_mul_of_Z 1000 z); lia. }
  unfold addSeconds, setTime, getTime. cbn [now]. rewrite H1000.
  rewrite float_add_of_Z by lia. by rewrite TimeClip_out_of_range.
Qed.

Lemma addSeconds_out_of_range_invalidates_witness :
  addSeconds {| now := of_Z 8640000000000000 |} (of_Z 1)
  = (nan, {| now := nan |}).
Proof.
  apply (addSeconds_out_of_range_invalidates 8640000000000000 1);
    [simpl; lia|simpl; lia|].
  split; [simpl; lia|reflexivity].
Defined.

End WholeAmounts.
